(** * Student marketplace front end: reservations and chat

    A shallow embedding of the client-side reservation and chat logic
    ([src/hooks/useReservations.tsx], [src/hooks/useChat.tsx], the chat
    window, the chat list and the contact-seller dialog) together with the
    properties the design document states about them.

    Conventions.
    - A JavaScript string is the list of its UTF-16 code units.
    - A time value (the result of [Date.now()] or of
      [new Date(s).getTime()]) is an integer number of milliseconds; the
      [NaN] of an unparsable date is [None].
    - [Date.now()] is read from an explicit [now] argument.
    - Built-ins that the code calls but that are not worth re-implementing
      in full (date parsing, Unicode upper-casing) are fields of the
      [Runtime] class, so that every theorem holds for any implementation
      of them.
    - A thrown exception is the [Throw] case of [Result]; a rejected
      promise is the same. *)

From stdpp Require Import base option list gmap strings.
From Stdlib Require Import ZArith Lia.
From Stdlib Require DecimalString.

Local Open Scope Z_scope.

(** ** JavaScript values *)

Module JS.

Definition code_unit := N.
Definition jsstring := list code_unit.

(** A string literal of the source, as code units. *)
Definition lit (s : string) : jsstring :=
  (λ a, Ascii.N_of_ascii a) <$> String.list_ascii_of_string s.

(** [!s] is [true] exactly for the empty string. *)
Definition truthy_string (s : jsstring) : bool :=
  match s with [] => false | _ => true end.

(** ECMAScript [WhiteSpace] and [LineTerminator] code points, the ones
    [String.prototype.trim] strips. All lie in the basic plane. *)
Definition isWhiteSpace (c : code_unit) : bool :=
  ((9 <=? c) && (c <=? 13) (* TAB LF VT FF CR *)
   || (c =? 32) || (c =? 160) || (c =? 5760)
   || (8192 <=? c) && (c <=? 8202)
   || (c =? 8232) || (c =? 8233) || (c =? 8239) || (c =? 8287)
   || (c =? 12288) || (c =? 65279))%N.

Fixpoint trimStart (s : jsstring) : jsstring :=
  match s with
  | [] => []
  | c :: r => if isWhiteSpace c then trimStart r else s
  end.

Definition trimEnd (s : jsstring) : jsstring := reverse (trimStart (reverse s)).

(** [s.trim()] *)
Definition trim (s : jsstring) : jsstring := trimEnd (trimStart s).

(** [0-9a-fA-F] *)
Definition isHexDigit (c : code_unit) : bool :=
  ((48 <=? c) && (c <=? 57) || (65 <=? c) && (c <=? 70)
   || (97 <=? c) && (c <=? 102))%N.

(** The values a response body can hold, plus [undefined]. Numbers are
    only ever inspected through [typeof] and truthiness, so an integer
    payload is enough. *)
#[local] Set Warnings "-register-all".
Inductive value :=
| VUndefined
| VNull
| VBool (b : bool)
| VNumber (x : Z)
| VString (s : jsstring)
| VArray (items : list value)
| VObject (fields : gmap jsstring value).

Inductive type_tag :=
| t_undefined | t_object | t_boolean | t_number | t_string.

(** [typeof v] *)
Definition typeof (v : value) : type_tag :=
  match v with
  | VUndefined => t_undefined
  | VNull => t_object
  | VBool _ => t_boolean
  | VNumber _ => t_number
  | VString _ => t_string
  | VArray _ => t_object
  | VObject _ => t_object
  end.

Definition is_string (v : value) : bool :=
  match v with VString _ => true | _ => false end.

Definition is_object_tag (v : value) : bool :=
  match typeof v with t_object => true | _ => false end.

(** Truthiness of a value ([!!v]). *)
Definition truthy (v : value) : bool :=
  match v with
  | VUndefined | VNull => false
  | VBool b => b
  | VNumber x => negb (x =? 0)
  | VString s => truthy_string s
  | VArray _ | VObject _ => true
  end.

(** [Array.isArray(v)] *)
Definition isArray (v : value) : bool :=
  match v with VArray _ => true | _ => false end.

(** [k in v], for a key [k] that is neither an array index nor
    ["length"]. On a primitive the operator raises a [TypeError],
    rendered as [None]. *)
Definition has_key (k : jsstring) (v : value) : option bool :=
  match v with
  | VObject fields => Some (bool_decide (is_Some (fields !! k)))
  | VArray _ => Some false
  | _ => None
  end.

(** [v.k] and [v?.k] for such a key: [undefined] when the property is
    absent. (The code never reads a property of [null] or [undefined]
    without the optional chain.) *)
Definition get (k : jsstring) (v : value) : value :=
  match v with
  | VObject fields => default VUndefined (fields !! k)
  | _ => VUndefined
  end.

End JS.

Import JS.

(** ** Built-ins taken from the runtime *)

Class Runtime := {
  (** [new Date(s).getTime()]: [None] stands for [NaN]. *)
  Date_getTime : jsstring → option Z;
  (** [s.toUpperCase()] *)
  toUpperCase : jsstring → jsstring
}.

(** *** A reference runtime

    Used to run the definitions on concrete inputs. Its date parser accepts
    the ECMAScript date-time string format [YYYY-MM-DDTHH:mm:ss.sssZ] (the
    format [Date.prototype.toISOString] and the JSON encoding of a date
    produce) and nothing else; upper-casing covers the ASCII letters. *)

Module Reference.

Definition digit (c : code_unit) : option Z :=
  if ((48 <=? c) && (c <=? 57))%N then Some (Z.of_N c - 48) else None.

Fixpoint number_from (acc : Z) (ds : list code_unit) : option Z :=
  match ds with
  | [] => Some acc
  | c :: r => d ← digit c; number_from (10 * acc + d) r
  end.

Definition number (ds : list code_unit) : option Z := number_from 0 ds.

Definition is_leap (y : Z) : bool :=
  (y mod 4 =? 0) && (negb (y mod 100 =? 0) || (y mod 400 =? 0)).

Definition days_in_month (y m : Z) : Z :=
  if m =? 2 then (if is_leap y then 29 else 28)
  else if (m =? 4) || (m =? 6) || (m =? 9) || (m =? 11) then 30 else 31.

(** Days between 1970-01-01 and the given civil date. *)
Definition days_from_civil (y m d : Z) : Z :=
  let y' := if m <=? 2 then y - 1 else y in
  let era := y' / 400 in
  let yoe := y' - era * 400 in
  let doy := (153 * (if 2 <? m then m - 3 else m + 9) + 2) / 5 + d - 1 in
  let doe := yoe * 365 + yoe / 4 - yoe / 100 + doy in
  era * 146097 + doe - 719468.

Definition parse_iso (s : jsstring) : option Z :=
  match s with
  | [y1; y2; y3; y4; a; m1; m2; b; d1; d2; t; h1; h2; c; i1; i2; e; s1; s2;
     f; l1; l2; l3; z] =>
      if bool_decide ([a; b; t; c; e; f; z] = lit "--T::.Z") then
        y ← number [y1; y2; y3; y4];
        m ← number [m1; m2];
        d ← number [d1; d2];
        h ← number [h1; h2];
        mi ← number [i1; i2];
        se ← number [s1; s2];
        ms ← number [l1; l2; l3];
        if (1 <=? m) && (m <=? 12) && (1 <=? d) && (d <=? days_in_month y m)
           && (h <=? 23) && (mi <=? 59) && (se <=? 59)
        then Some ((((days_from_civil y m d * 24 + h) * 60 + mi) * 60 + se)
                   * 1000 + ms)
        else None
      else None
  | _ => None
  end.

Definition upper_ascii (s : jsstring) : jsstring :=
  (λ c, if ((97 <=? c) && (c <=? 122))%N then (c - 32)%N else c) <$> s.

Definition runtime : Runtime :=
  {| Date_getTime := parse_iso; toUpperCase := upper_ascii |}.

End Reference.


(** ** Exceptions and promises *)

Inductive Result (E A : Type) :=
| Ok (a : A)
| Throw (e : E).
Arguments Ok {E A} a.
Arguments Throw {E A} e.

Definition bind {E A B} (r : Result E A) (k : A → Result E B) : Result E B :=
  match r with Ok a => k a | Throw e => Throw e end.

Notation "x <-! r ; k" := (bind r (λ x, k))
  (at level 100, r at next level, right associativity).

(** [try { body } catch { return d }] *)
Definition try_catch {E A} (body : Result E A) (handler : E → A) : A :=
  match body with Ok a => a | Throw e => handler e end.

(** ** The API client ([lib/api]) *)

Module Api.

(** What [request] throws: the error built from a non-2xx response
    ([status] is the HTTP status, [data] the parsed body or [null]) or
    the network error ([status = 0]). Anything else the body of a query
    function raises is a [TypeError]. *)
Record HttpError := {
  status : Z;
  message : jsstring;
  data : value;
  isNetworkError : bool
}.

Inductive Error :=
| RequestError (e : HttpError)
| TypeError
| PlainError (message : jsstring).

Definition errorMessage (e : Error) : jsstring :=
  match e with
  | RequestError h => message h
  | TypeError => lit "TypeError"
  | PlainError m => m
  end.

End Api.

(** ** Reservations ([src/hooks/useReservations.tsx]) *)

Module Reservation.
Record t := {
  _id : jsstring;
  productId : jsstring;
  userId : jsstring;
  userName : option jsstring;
  reservedAt : jsstring;
  expiresAt : jsstring;
  status : jsstring;
  durationMinutes : Z
}.
End Reservation.

Module CreateReservationData.
Record t := {
  productId : jsstring;
  durationMinutes : Z
}.
End CreateReservationData.

Module Reservations.
Section WithRuntime.
Context `{Runtime}.

Definition isValidReservation (reservation : value) : bool :=
  if negb (truthy reservation) || negb (is_object_tag reservation) then false
  else
    let r := reservation in
    if negb (is_string (get (lit "_id") r))
       || negb (is_string (get (lit "productId") r))
       || negb (is_string (get (lit "userId") r))
       || negb (is_string (get (lit "status") r))
       || negb (is_string (get (lit "expiresAt") r))
    then false
    else
      match get (lit "expiresAt") r with
      | VString e =>
          match Date_getTime e with
          | None => false
          | Some _ =>
              match get (lit "reservedAt") r with
              | VString ra =>
                  if truthy_string ra then
                    match Date_getTime ra with
                    | None => false
                    | Some _ => true
                    end
                  else true
              | _ => true
              end
          end
      | _ => false
      end.

(** The [try] block of the query function of [useMyReservations], given
    the outcome of [api.get('/reservations/my')]. *)
Definition useMyReservations_try (fetched : Result Api.Error value)
  : Result Api.Error (list value) :=
  response <-! fetched;
  reservations <-!
    match response with
    | VArray items => Ok items
    | _ =>
        if truthy response && is_object_tag response then
          match has_key (lit "reservations") response with
          | None => Throw Api.TypeError
          | Some true =>
              match get (lit "reservations") response with
              | VArray res => Ok res
              | _ => Ok []
              end
          | Some false => Ok []
          end
        else Ok []
    end;
  Ok (List.filter isValidReservation reservations).

Definition useMyReservations_queryFn (fetched : Result Api.Error value)
  : list value :=
  try_catch (useMyReservations_try fetched) (λ _, []).

(** [/^[0-9a-fA-F]{24}$/]: [n] characters of the class, then whatever is
    left. *)
Fixpoint match_hex (n : nat) (s : jsstring) : option jsstring :=
  match n with
  | O => Some s
  | S n' =>
      match s with
      | c :: r => if isHexDigit c then match_hex n' r else None
      | [] => None
      end
  end.

Definition isValidObjectId (id : jsstring) : bool :=
  match match_hex 24 id with
  | Some [] => true
  | _ => false
  end.

Inductive Request :=
| POST (path : jsstring) (body : CreateReservationData.t).

(** [[30, 60, 120, 1440].includes(d)] *)
Definition includes (l : list Z) (d : Z) : bool := bool_decide (d ∈ l).

(** The mutation function of [useCreateReservation]: either it throws,
    or it hands a request to [api.post]. *)
Definition useCreateReservation_mutationFn (data : CreateReservationData.t)
  : Result Api.Error Request :=
  if negb (truthy_string (CreateReservationData.productId data))
     || negb (isValidObjectId (CreateReservationData.productId data))
  then Throw (Api.PlainError (lit "Invalid product ID"))
  else if (CreateReservationData.durationMinutes data =? 0)
          || negb (includes [30; 60; 120; 1440]
                     (CreateReservationData.durationMinutes data))
  then Throw (Api.PlainError
                (lit "Invalid duration. Must be 30, 60, 120, or 1440 minutes"))
  else Ok (POST (lit "/reservations") data).

Definition isReservationExpired (expiresAt : jsstring) (now : Z) : bool :=
  if negb (truthy_string expiresAt) then true
  else
    match Date_getTime expiresAt with
    | None => true
    | Some expiryTime => expiryTime <? now
    end.

Definition getTimeRemaining (expiresAt : jsstring) (now : Z) : Z :=
  if negb (truthy_string expiresAt) then 0
  else
    match Date_getTime expiresAt with
    | None => 0
    | Some expiryTime =>
        let remaining := expiryTime - now in
        if 0 <? remaining then remaining else 0
    end.

Definition isReservationActive (reservation : option Reservation.t) (now : Z)
  : bool :=
  match reservation with
  | None => false
  | Some reservation =>
      if negb (truthy_string (Reservation.status reservation))
         || negb (truthy_string (Reservation.expiresAt reservation))
      then false
      else
        let status := toUpperCase (Reservation.status reservation) in
        bool_decide (status = lit "ACTIVE")
        && negb (isReservationExpired (Reservation.expiresAt reservation) now)
  end.

End WithRuntime.
End Reservations.

(** The timer badge ([src/components/ReservationTimer.tsx]): its
    [isExpired] state, as initialised and as refreshed by the effect. *)
Module ReservationTimer.
Definition isExpired `{Runtime} (expiresAt : jsstring) (now : Z) : bool :=
  Reservations.getTimeRemaining expiresAt now =? 0.
End ReservationTimer.

(** ** Chat ([src/hooks/useChat.tsx]) *)

Module Message.
Record t := {
  _id : jsstring;
  chatId : jsstring;
  senderId : jsstring;
  senderName : jsstring;
  receiverId : jsstring;
  message : jsstring;
  createdAt : jsstring;
  delivered : bool;
  read : bool
}.
End Message.

Module Chat.
Record t := {
  _id : jsstring;
  buyerId : jsstring;
  sellerId : jsstring;
  productId : option jsstring;
  expiresAt : jsstring;
  unreadCount : option Z;
  createdAt : jsstring
}.
End Chat.

Module UseChat.

(** The updater [handleReceiveMessage] passes to [setQueryData] for the
    key [['messages', chatId]]; [old] is [undefined] when the key has no
    data yet. *)
Definition handleReceiveMessage (message : Message.t)
    (old : option (list Message.t)) : list Message.t :=
  match old with
  | None => [message]
  | Some old =>
      if existsb (λ m, bool_decide (Message._id m = Message._id message)) old
      then old
      else old ++ [message]
  end.

(** The ids of a cached list, in order. *)
Definition ids (l : list Message.t) : list jsstring := Message._id <$> l.

(** The cache entry [['messages', chatId]] after [setQueryData] has run
    the updater for one incoming message, and after a run of them. *)
Definition receive (cache : option (list Message.t)) (message : Message.t)
  : option (list Message.t) :=
  Some (handleReceiveMessage message cache).

Definition receive_all (cache : option (list Message.t))
    (incoming : list Message.t) : option (list Message.t) :=
  foldl receive cache incoming.

(** What [useChatSocket] closes over: the socket (possibly absent), the
    chat id (possibly absent), the connection flag and the local typing
    flag. *)
Record Hook := {
  socket : bool;
  chatId : option jsstring;
  isConnected : bool;
  isTyping : bool
}.

Inductive Emit :=
| send_message (chatId message : jsstring)
| typing (chatId : jsstring)
| stop_typing (chatId : jsstring)
| mark_read (chatId : jsstring).

(** The events [sendMessage(message)] emits on the socket. *)
Definition sendMessage (h : Hook) (message : jsstring) : list Emit :=
  match chatId h with
  | Some id =>
      if negb (socket h) || negb (truthy_string id) || negb (isConnected h)
         || negb (truthy_string (trim message))
      then []
      else [send_message id (trim message)]
  | None => []
  end.

Definition stopTyping (h : Hook) : list Emit :=
  match chatId h with
  | Some id =>
      if negb (socket h) || negb (truthy_string id) || negb (isConnected h)
      then []
      else if isTyping h then [stop_typing id] else []
  | None => []
  end.

Section WithRuntime.
Context `{Runtime}.

Definition isChatExpired (expiresAt : jsstring) (now : Z) : bool :=
  if negb (truthy_string expiresAt) then false
  else
    match Date_getTime expiresAt with
    | None => false
    | Some expiryTime => expiryTime <? now
    end.

(** [Math.ceil(a / b)] for an integer [a] and a positive integer [b].
    A parsed time value is an integer of magnitude at most 8.64e15
    and the current time is an integer near 1.7e12, so their
    difference is an exact integer below 2^53; divided by 86,400,000,
    a quotient that is not an integer lies at least 1/86,400,000 away
    from the nearest one, more than the rounding error of the
    division. The ceiling of the computed quotient is therefore the
    ceiling of the exact one. *)
Definition Math_ceil_div (a b : Z) : Z := - ((- a) / b).

Definition getChatExpiryDays (expiresAt : jsstring) (now : Z) : Z :=
  if negb (truthy_string expiresAt) then 0
  else
    match Date_getTime expiresAt with
    | None => 0
    | Some expiryTime =>
        let diff := expiryTime - now in
        Math_ceil_div diff (1000 * 60 * 60 * 24)
    end.

End WithRuntime.
End UseChat.

(** ** The chat window page *)

Module ChatWindow.
Import UseChat.

(** The component state the send path reads. *)
Record State := {
  messageText : jsstring;
  isSending : bool
}.

Definition handleSendMessage (h : Hook) (st : State) : list Emit :=
  if negb (truthy_string (trim (messageText st))) || isSending st
     || negb (isConnected h)
  then []
  else
    let text := trim (messageText st) in
    stopTyping h ++ sendMessage h text.

Inductive UiEvent :=
| ClickSend
| KeyDown (key : jsstring) (shiftKey : bool).

Section WithRuntime.
Context `{Runtime}.

(** What the page derives from the chat on a render at time [now]. *)
Record View := {
  isExpired : bool;
  daysLeft : Z;
  isExpiringSoon : bool;
  showExpiryWarning : bool;
  showExpiredAlert : bool;
  showInput : bool
}.

Definition render (chat : Chat.t) (now : Z) : View :=
  let isExpired := isChatExpired (Chat.expiresAt chat) now in
  let daysLeft := getChatExpiryDays (Chat.expiresAt chat) now in
  let isExpiringSoon := (daysLeft <=? 2) && (0 <? daysLeft) in
  {| isExpired := isExpired;
     daysLeft := daysLeft;
     isExpiringSoon := isExpiringSoon;
     showExpiryWarning := isExpiringSoon && negb isExpired;
     showExpiredAlert := isExpired;
     showInput := negb isExpired |}.

(** A user event on the page rendered at time [now]. The text area and
    the send button exist only inside the [!isExpired] block; a
    disabled control receives no event. *)
Definition dispatch (chat : Chat.t) (now : Z) (h : Hook) (st : State)
    (ev : UiEvent) : list Emit :=
  if showInput (render chat now) then
    match ev with
    | ClickSend =>
        if negb (truthy_string (trim (messageText st)))
           || negb (isConnected h) || isSending st
        then []
        else handleSendMessage h st
    | KeyDown key shiftKey =>
        if negb (isConnected h) || isSending st then []
        else if bool_decide (key = lit "Enter") && negb shiftKey
        then handleSendMessage h st
        else []
    end
  else [].

End WithRuntime.
End ChatWindow.

(** ** The chat list page ([src/pages/ChatList.tsx]) *)

Module ChatList.
Import UseChat.
Section WithRuntime.
Context `{Runtime}.

Definition activeChats (chats : list Chat.t) (now : Z) : list Chat.t :=
  List.filter (λ chat, negb (isChatExpired (Chat.expiresAt chat) now)) chats.

Definition expiredChats (chats : list Chat.t) (now : Z) : list Chat.t :=
  List.filter (λ chat, isChatExpired (Chat.expiresAt chat) now) chats.

(** The annotation of one row of the active list: [daysLeft] and
    [isExpiringSoon]. *)
Definition annotate (chat : Chat.t) (now : Z) : Z * bool :=
  let daysLeft := getChatExpiryDays (Chat.expiresAt chat) now in
  (daysLeft, daysLeft <=? 2).

End WithRuntime.
End ChatList.

(** ** The contact-seller dialog ([src/components/ContactSellerButton.tsx]) *)

Module ContactSellerButton.

Record Props := {
  sellerId : jsstring;
  sellerName : jsstring;
  productId : option jsstring
}.

(** What the handler does, in order. [navigate_chat id m] stands for
    [navigate(`/chat/${id}`, { state: { initialMessage: m } })]. *)
Inductive Effect :=
| toast_error (title : jsstring) (description : option jsstring)
| toast_success (title : jsstring)
| navigate_chat (id : value) (initialMessage : jsstring)
| console_error
| setIsCreating (b : bool)
| setShowDialog (b : bool)
| setMessage (s : jsstring).

(** The body of [POST /chats]. *)
Record CreateChatData := {
  data_sellerId : jsstring;
  data_productId : option jsstring
}.

Definition request_of (props : Props) : CreateChatData :=
  {| data_sellerId := sellerId props; data_productId := productId props |}.

Definition finally : list Effect :=
  [setIsCreating false; setShowDialog false; setMessage []].

Section WithEngine.
(** The message of the [TypeError] the engine raises when [_id] is
    read from [undefined] or [null]. *)
Context (cannot_read_id : jsstring).

(** [handleSendMessage], given how [createChat.mutateAsync] settles.
    The promise resolves to whatever [lib/api] returns: the parsed
    body, the text of a body that is not JSON, or [undefined] for a
    204. Reading [chat._id] from [undefined] or [null] throws after
    the success toast, and the [catch] branch takes over; from any
    other value the read yields the property or [undefined]. *)
Definition handleSendMessage (message : jsstring)
    (createChat : CreateChatData → Result Api.Error value)
    (props : Props) : list Effect :=
  if negb (truthy_string (trim message)) then
    [toast_error (lit "Please enter a message") None]
  else
    setIsCreating true ::
    match createChat (request_of props) with
    | Ok chat =>
        toast_success (lit "Chat created!") ::
        match chat with
        | VUndefined | VNull =>
            console_error
            :: toast_error (lit "Failed to contact seller")
                 (Some cannot_read_id)
            :: finally
        | _ =>
            navigate_chat (get (lit "_id") chat) (trim message) :: finally
        end
    | Throw error =>
        console_error ::
        match error with
        | Api.RequestError e =>
            if (Api.status e =? 409)
               && truthy (get (lit "chatId") (Api.data e))
            then
              navigate_chat (get (lit "chatId") (Api.data e)) (trim message)
              :: finally
            else
              toast_error (lit "Failed to contact seller")
                (Some (Api.errorMessage error))
              :: finally
        | _ =>
            toast_error (lit "Failed to contact seller")
              (Some (Api.errorMessage error))
            :: finally
        end
    end.

End WithEngine.

End ContactSellerButton.

(** ** The lease manager *)

(** The lease manager runs on the server; this repository holds only its
    callers ([useCreateReservation], [useCancelReservation],
    [useProductReservation]). *)
Module LeaseManager.

Inductive Status := ACTIVE | EXPIRED | CANCELLED.

#[global] Instance Status_eq_dec : EqDecision Status.
Proof. solve_decision. Defined.

Abbreviation LeaseId := N.

Record Lease := {
  product : jsstring;
  holder : jsstring;
  created : Z;
  durationMinutes : Z;
  expires : Z;
  status : Status
}.

Inductive Error :=
| InvalidArgument
| Conflict (existing : option LeaseId)
| Forbidden
| NotFound.

(** Modelled from the spec: the lease store, "durable record of
    reservation leases", each lease under its opaque id. *)
Abbreviation Store := (gmap LeaseId Lease).

(** Modelled from the spec: a store entry that is "an ACTIVE lease for
    productId". *)
Definition is_active_for (productId : jsstring) (entry : LeaseId * Lease)
  : bool :=
  bool_decide (status entry.2 = ACTIVE)
  && bool_decide (product entry.2 = productId).

(** Modelled from the spec: [getLeaseForProduct(productId)], "the current
    ACTIVE lease or none; never returns EXPIRED/CANCELLED leases". *)
Definition getLeaseForProduct (st : Store) (productId : jsstring)
  : option (LeaseId * Lease) :=
  head (List.filter (is_active_for productId) (map_to_list st)).

(** Modelled from the spec: [createLease(productId, holderId,
    durationMinutes)], which "rejects if durationMinutes is not one of
    the four enumerated values (signals InvalidArgument)", "rejects with
    Conflict if an ACTIVE lease already exists for productId, returning
    the existing lease's id", and otherwise creates an ACTIVE lease that
    expires at creation + duration. *)
Definition createLease (st : Store) (now : Z)
    (productId holderId : jsstring) (duration : Z)
  : Result Error (LeaseId * Lease) * Store :=
  if negb (bool_decide (duration ∈ [30; 60; 120; 1440])) then
    (Throw InvalidArgument, st)
  else
    match getLeaseForProduct st productId with
    | Some (existing, _) => (Throw (Conflict (Some existing)), st)
    | None =>
        let id := fresh (dom st) in
        let lease := {| product := productId; holder := holderId;
                        created := now; durationMinutes := duration;
                        expires := now + duration * 60000;
                        status := ACTIVE |} in
        (Ok (id, lease), <[id := lease]> st)
    end.

(** Modelled from the spec: [cancelLease(leaseId, requesterId)],
    ACTIVE to CANCELLED, Forbidden for anyone but the holder,
    NotFound/Conflict when the lease is unknown or not ACTIVE. *)
Definition cancelLease (st : Store) (leaseId : LeaseId)
    (requesterId : jsstring) : Result Error unit * Store :=
  match st !! leaseId with
  | None => (Throw NotFound, st)
  | Some lease =>
      if negb (bool_decide (holder lease = requesterId)) then
        (Throw Forbidden, st)
      else if negb (bool_decide (status lease = ACTIVE)) then
        (Throw (Conflict None), st)
      else
        (Ok (), <[leaseId :=
                    {| product := product lease; holder := holder lease;
                       created := created lease;
                       durationMinutes := durationMinutes lease;
                       expires := expires lease;
                       status := CANCELLED |}]> st)
  end.

(** Modelled from the spec: the lifecycle rule "transitions to EXPIRED
    automatically and irreversibly once current time ≥ expiry timestamp",
    applied to one lease. *)
Definition expire (now : Z) (lease : Lease) : Lease :=
  if bool_decide (status lease = ACTIVE) && (expires lease <=? now) then
    {| product := product lease; holder := holder lease;
       created := created lease;
       durationMinutes := durationMinutes lease;
       expires := expires lease; status := EXPIRED |}
  else lease.

(** Modelled from the spec: the expiry sweep, which "transitions any
    lease whose expiry timestamp has passed from ACTIVE to EXPIRED". *)
Definition sweep (st : Store) (now : Z) : Store := expire now <$> st.

(** Modelled from the spec: the operations that write the store.
    Requests against one store are serialised ("operations against the
    same lease/session serialize"), so concurrent callers amount to some
    interleaving of whole operations, each stamped with the time it
    runs at. *)
Inductive Op :=
| CreateLease (productId holderId : jsstring) (duration : Z)
| CancelLease (leaseId : LeaseId) (requesterId : jsstring)
| Sweep.

Definition step (st : Store) (timed : Z * Op) : Store :=
  match timed.2 with
  | CreateLease p h d => (createLease st timed.1 p h d).2
  | CancelLease i r => (cancelLease st i r).2
  | Sweep => sweep st timed.1
  end.

Definition run (trace : list (Z * Op)) : Store := foldl step ∅ trace.

(** Modelled from the spec: the invariant "for a given product, at most
    one Lease may be ACTIVE at any instant". *)
Definition at_most_one_active (st : Store) : Prop :=
  ∀ i j li lj,
    st !! i = Some li → st !! j = Some lj →
    status li = ACTIVE → status lj = ACTIVE →
    product li = product lj → i = j.

End LeaseManager.


(** ** The session manager *)

(** The session manager and the facade in front of it run on the server;
    this repository holds only their callers ([useCreateChat], the
    contact dialog, the chat window). *)
Module SessionManager.

Record Session := {
  initiator : jsstring;
  counterparty : jsstring;
  product : option jsstring;
  created : Z;
  expires : Z
}.

Inductive Error :=
| InvalidArgument
| Gone.

(** Modelled from the spec: the session store, "durable record of
    conversation sessions", each session under its opaque id. *)
Abbreviation Store := (gmap N Session).

(** Modelled from the spec: the uniqueness key, "the unordered
    participant pair plus optional product id". *)
Definition has_key (a b : jsstring) (productId : option jsstring)
    (entry : N * Session) : bool :=
  (bool_decide (initiator entry.2 = a) && bool_decide (counterparty entry.2 = b)
   || bool_decide (initiator entry.2 = b)
      && bool_decide (counterparty entry.2 = a))
  && bool_decide (product entry.2 = productId).

(** Modelled from the spec: the lookup of the session of a key. *)
Definition find (st : Store) (a b : jsstring) (productId : option jsstring)
  : option (N * Session) :=
  head (List.filter (has_key a b productId) (map_to_list st)).

(** Modelled from the spec: [createOrGetSession(initiatorId,
    counterpartyId, productId?)], which returns the "Session plus a
    boolean indicating whether it was newly created or pre-existing",
    "rejects if initiatorId == counterpartyId", and gives a new session
    the retention expiry "creation + fixed 7-day window". *)
Definition createOrGetSession (st : Store) (now : Z)
    (initiatorId counterpartyId : jsstring) (productId : option jsstring)
  : Result Error (N * Session * bool) * Store :=
  if bool_decide (initiatorId = counterpartyId) then
    (Throw InvalidArgument, st)
  else
    match find st initiatorId counterpartyId productId with
    | Some (id, session) => (Ok (id, session, false), st)
    | None =>
        let id := fresh (dom st) in
        let session := {| initiator := initiatorId;
                          counterparty := counterpartyId;
                          product := productId;
                          created := now;
                          expires := now + 7 * 24 * 60 * 60 * 1000 |} in
        (Ok (id, session, true), <[id := session]> st)
    end.

(** Modelled from the spec: the acceptance check of
    [postMessage(sessionId, senderId, body)] on the session it
    addresses: the facade rejects an empty body (InvalidArgument), and
    the manager "rejects Gone if the session's retention window has
    elapsed", the session being read-only "once current time exceeds
    the retention expiry". An accepted post yields its body. *)
Definition postMessage (session : Session) (now : Z) (body : jsstring)
  : Result Error jsstring :=
  if negb (truthy_string body) then Throw InvalidArgument
  else if expires session <? now then Throw Gone
  else Ok body.

End SessionManager.

(** The answers of [POST /chats] as the client sees them. *)
Module ChatFacade.
Import SessionManager.

(** Modelled from the spec: how a pre-existing session is reported. The
    interface lists the answer [{session, created: boolean}]; the error
    design surfaces a Conflict "with enough context (e.g., the winning
    entity's id)", which is the 409 with a [chatId] that the contact
    dialog handles. *)
Inductive ExistingAs := AsSuccess | AsConflict.

(** Modelled from the spec: an answer on the wire, a successful
    response with the chat and the [created] flag, or an error
    response. *)
Inductive Wire :=
| Success (chat : value) (created : bool)
| Failure (e : Api.HttpError).

Section WithIds.
(** The string a session id is sent as. *)
Context (render_id : N → jsstring).

(** Modelled from the spec: the chat of a successful answer, with the
    fields the dialog can read. *)
Definition chat_json (id : N) (session : Session) : value :=
  VObject (list_to_map
    ([(lit "_id", VString (render_id id));
      (lit "buyerId", VString (initiator session));
      (lit "sellerId", VString (counterparty session))]
     ++ match product session with
        | Some p => [(lit "productId", VString p)]
        | None => []
        end)).

(** Modelled from the spec: "Create/get session: input
    {counterpartyId, productId?}" for the authenticated [caller]. *)
Definition createChat (mode : ExistingAs) (st : Store) (now : Z)
    (caller : jsstring) (data : ContactSellerButton.CreateChatData)
  : Wire * Store :=
  match createOrGetSession st now caller
          (ContactSellerButton.data_sellerId data)
          (ContactSellerButton.data_productId data) with
  | (Throw _, st') =>
      (Failure {| Api.status := 400;
                  Api.message := lit "Invalid request";
                  Api.data := VNull;
                  Api.isNetworkError := false |}, st')
  | (Ok (id, session, true), st') =>
      (Success (chat_json id session) true, st')
  | (Ok (id, session, false), st') =>
      match mode with
      | AsSuccess => (Success (chat_json id session) false, st')
      | AsConflict =>
          (Failure {| Api.status := 409;
                      Api.message := lit "Chat already exists";
                      Api.data :=
                        VObject {[ lit "chatId" := VString (render_id id) ]};
                      Api.isNetworkError := false |}, st')
      end
  end.

End WithIds.


End ChatFacade.

(** A message sent from the chat window and the server's answer to it. *)
Module ChatPosting.
Import UseChat.
Section WithRuntime.
Context `{Runtime}.

(** The answers to the [send_message] events among [emitted], each
    handled by the server at time [posted]. *)
Definition answers (session : SessionManager.Session) (posted : Z)
    (emitted : list Emit)
  : list (Result SessionManager.Error jsstring) :=
  flat_map (λ e, match e with
                 | send_message _ body =>
                     [SessionManager.postMessage session posted body]
                 | _ => []
                 end) emitted.

(** A user event on the chat window as last rendered at time
    [rendered], reaching the server at time [posted]. The handlers
    of the page read no clock: what they emit depends on the render
    only. *)
Definition post (chat : Chat.t) (session : SessionManager.Session)
    (rendered posted : Z) (h : Hook) (st : ChatWindow.State)
    (ev : ChatWindow.UiEvent)
  : list (Result SessionManager.Error jsstring) :=
  answers session posted (ChatWindow.dispatch chat rendered h st ev).

End WithRuntime.
End ChatPosting.

(** ** Sample data *)

Definition sample_reservation : Reservation.t :=
  {| Reservation._id := lit "65f0c0ffee0123456789abcd";
     Reservation.productId := lit "65f0c0ffee0123456789abce";
     Reservation.userId := lit "65f0c0ffee0123456789abcf";
     Reservation.userName := None;
     Reservation.reservedAt := lit "2024-12-31T23:30:00.000Z";
     Reservation.expiresAt := lit "2025-01-01T00:00:00.000Z";
     Reservation.status := lit "ACTIVE";
     Reservation.durationMinutes := 30 |}.

Definition sample_chat : Chat.t :=
  {| Chat._id := lit "65f0c0ffee0123456789ab01";
     Chat.buyerId := lit "65f0c0ffee0123456789ab02";
     Chat.sellerId := lit "65f0c0ffee0123456789ab03";
     Chat.productId := Some (lit "65f0c0ffee0123456789abce");
     Chat.expiresAt := lit "2025-01-08T00:00:00.000Z";
     Chat.unreadCount := None;
     Chat.createdAt := lit "2025-01-01T00:00:00.000Z" |}.

Definition sample_hook : UseChat.Hook :=
  {| UseChat.socket := true;
     UseChat.chatId := Some (lit "65f0c0ffee0123456789ab01");
     UseChat.isConnected := true;
     UseChat.isTyping := false |}.

Definition sample_state : ChatWindow.State :=
  {| ChatWindow.messageText := lit "  is it still available? ";
     ChatWindow.isSending := false |}.

Definition sample_message (id body : string) : Message.t :=
  {| Message._id := lit id;
     Message.chatId := lit "65f0c0ffee0123456789ab01";
     Message.senderId := lit "65f0c0ffee0123456789ab02";
     Message.senderName := lit "Ada";
     Message.receiverId := lit "65f0c0ffee0123456789ab03";
     Message.message := lit body;
     Message.createdAt := lit "2025-01-01T00:00:00.000Z";
     Message.delivered := true;
     Message.read := false |}.

Definition sample_reservation_json (expiresAt : string) : value :=
  VObject (list_to_map
    [(lit "_id", VString (lit "65f0c0ffee0123456789abcd"));
     (lit "productId", VString (lit "65f0c0ffee0123456789abce"));
     (lit "userId", VString (lit "65f0c0ffee0123456789abcf"));
     (lit "status", VString (lit "ACTIVE"));
     (lit "durationMinutes", VNumber 30);
     (lit "expiresAt", VString (lit expiresAt))]).



(** ** More of the reservation hooks ([src/hooks/useReservations.tsx]) *)

Module ReservationDisplay.

(** An integer interpolated into a template literal. *)
Definition decimal (n : Z) : jsstring :=
  if n <? 0
  then lit "-" ++ lit (DecimalString.NilZero.string_of_uint (N.to_uint (Z.to_N (- n))))
  else lit (DecimalString.NilZero.string_of_uint (N.to_uint (Z.to_N n))).

Section WithRuntime.
Context `{Runtime}.

(** [formatTimeRemaining]. The [Math.floor(a / b)] of a non-negative
    integer by a positive one is the integer quotient [a / b]. *)
Definition formatTimeRemaining (expiresAt : jsstring) (now : Z) : jsstring :=
  let remaining := Reservations.getTimeRemaining expiresAt now in
  if remaining =? 0 then lit "Expired"
  else
    let seconds := remaining / 1000 in
    let minutes := seconds / 60 in
    let hours := minutes / 60 in
    let days := hours / 24 in
    if 0 <? days then
      let remainingHours := hours mod 24 in
      decimal days ++ lit "d " ++ decimal remainingHours ++ lit "h"
    else if 0 <? hours then
      let remainingMinutes := minutes mod 60 in
      decimal hours ++ lit "h " ++ decimal remainingMinutes ++ lit "m"
    else if 0 <? minutes then
      let remainingSeconds := seconds mod 60 in
      decimal minutes ++ lit "m " ++ decimal remainingSeconds ++ lit "s"
    else decimal seconds ++ lit "s".

End WithRuntime.
End ReservationDisplay.

Module ReservationQueries.
Section WithRuntime.
Context `{Runtime}.

(** [enabled: !!id && isValidObjectId(id)], of [useProductReservation]
    and of [useReservation]. *)
Definition enabled (id : option jsstring) : bool :=
  match id with
  | None => false
  | Some id => truthy_string id && Reservations.isValidObjectId id
  end.

(** The query function of [useProductReservation], given the outcome
    of [api.get]. *)
Definition useProductReservation_queryFn (fetched : Result Api.Error value)
  : value :=
  try_catch fetched (λ _, VNull).

(** The query function of [useReservation]. *)
Definition useReservation_queryFn (fetched : Result Api.Error value)
  : value :=
  try_catch
    (reservation <-! fetched;
     Ok (if Reservations.isValidReservation reservation
         then reservation else VNull))
    (λ _, VNull).

Inductive CancelRequest :=
| DELETE (path : jsstring).

(** The mutation function of [useCancelReservation]. *)
Definition useCancelReservation_mutationFn (reservationId : jsstring)
  : Result Api.Error CancelRequest :=
  if negb (truthy_string reservationId)
     || negb (Reservations.isValidObjectId reservationId)
  then Throw (Api.PlainError (lit "Invalid reservation ID"))
  else Ok (DELETE (lit "/reservations/" ++ reservationId)).

End WithRuntime.
End ReservationQueries.

(** ** The page of my reservations *)

Module MyReservations.
Section WithRuntime.
Context `{Runtime}.

Definition activeReservations (reservations : list Reservation.t) (now : Z)
  : list Reservation.t :=
  List.filter (λ r, Reservations.isReservationActive (Some r) now)
    reservations.

Definition expiredReservations (reservations : list Reservation.t)
  : list Reservation.t :=
  List.filter
    (λ r, bool_decide (toUpperCase (Reservation.status r) = lit "EXPIRED"))
    reservations.

Definition cancelledReservations (reservations : list Reservation.t)
  : list Reservation.t :=
  List.filter
    (λ r, bool_decide (toUpperCase (Reservation.status r) = lit "CANCELLED"))
    reservations.

End WithRuntime.
End MyReservations.

(** ** The reservation dialog ([src/components/ReservationModal.tsx]) *)

Module ReservationModal.

Record ReservationResponse := {
  reservation : Reservation.t;
  message : jsstring
}.

Inductive Effect :=
| toast_error (title description : jsstring)
| toast_success (title description : jsstring)
| onClose
| navigate_login
| onSuccess.

Definition DURATION_OPTIONS : list Z := [30; 60; 120; 1440].

Section WithRuntime.
Context `{Runtime}.
(** [date.toLocaleString('en-US', {...})] of a time value. *)
Context (toLocaleString : Z → jsstring).

(** [createReservation.mutateAsync(data)]: the mutation function runs
    first, and what it throws rejects the promise; [server] is how
    the request it hands to [api.post] settles. *)
Definition mutateAsync
    (server : CreateReservationData.t → Result Api.Error ReservationResponse)
    (data : CreateReservationData.t)
  : Result Api.Error ReservationResponse :=
  request <-! Reservations.useCreateReservation_mutationFn data;
  match request with
  | Reservations.POST _ body => server body
  end.

Definition handleReserve (productId productTitle : jsstring)
    (isAuthenticated : bool) (selectedDuration : Z)
    (server : CreateReservationData.t → Result Api.Error ReservationResponse)
  : list Effect :=
  if negb (truthy_string productId) then
    [toast_error (lit "Invalid product")
       (lit "Product ID is missing or invalid.");
     onClose]
  else if negb isAuthenticated then
    [toast_error (lit "Login required")
       (lit "Please login to reserve products.");
     onClose; navigate_login]
  else
    try_catch
      (response <-!
         mutateAsync server
           {| CreateReservationData.productId := productId;
              CreateReservationData.durationMinutes := selectedDuration |};
       if negb (truthy_string
                  (Reservation.expiresAt (reservation response)))
       then Throw (Api.PlainError (lit "Invalid response from server"))
       else
         match Date_getTime (Reservation.expiresAt (reservation response))
         with
         | None =>
             Throw (Api.PlainError (lit "Invalid expiration date received"))
         | Some expiresAt =>
             Ok [toast_success (lit "Product reserved!")
                   ((if truthy_string productTitle then productTitle
                     else lit "Product")
                    ++ lit " is reserved until "
                    ++ toLocaleString expiresAt);
                 onSuccess; onClose]
         end)
      (λ error,
         [toast_error (lit "Reservation failed") (Api.errorMessage error)]).

End WithRuntime.
End ReservationModal.

(** ** More of the chat hooks ([src/hooks/useChat.tsx]) *)

Module ChatQueries.

(** The query function of [useChats], given the outcome of
    [api.get('/chats')]. *)
Definition useChats_queryFn (fetched : Result Api.Error value)
  : Result Api.Error (list value) :=
  response <-! fetched;
  match response with
  | VArray items => Ok items
  | _ =>
      if truthy response && is_object_tag response then
        match has_key (lit "chats") response with
        | None => Throw Api.TypeError
        | Some true =>
            match get (lit "chats") response with
            | VArray chats => Ok chats
            | _ => Ok []
            end
        | Some false => Ok []
        end
      else Ok []
  end.

(** The query function of [useMessages]. *)
Definition useMessages_queryFn (fetched : Result Api.Error value)
  : Result Api.Error (list value) :=
  response <-! fetched;
  match response with
  | VArray items => Ok items
  | _ =>
      if truthy response && is_object_tag response then
        match has_key (lit "messages") response with
        | None => Throw Api.TypeError
        | Some true =>
            match get (lit "messages") response with
            | VArray messages => Ok messages
            | _ => Ok []
            end
        | Some false => Ok []
        end
      else Ok []
  end.

End ChatQueries.

(** The chat list under a running clock ([src/pages/ChatList.tsx]): each
    of the two filters calls [isChatExpired], hence reads [Date.now()],
    once for each chat. *)
Module ChatListReads.
Import UseChat.
Section WithRuntime.
Context `{Runtime}.

(** [chats.filter(keep)] for a callback that reads the clock once:
    [reads] are the successive readings, one for each chat. *)
Fixpoint filter_reading (keep : Chat.t → Z → bool) (chats : list Chat.t)
    (reads : list Z) : list Chat.t :=
  match chats, reads with
  | chat :: chats', now :: reads' =>
      (if keep chat now then [chat] else [])
      ++ filter_reading keep chats' reads'
  | _, _ => []
  end.

Definition activeChats (chats : list Chat.t) (reads : list Z)
  : list Chat.t :=
  filter_reading (λ chat now, negb (isChatExpired (Chat.expiresAt chat) now))
    chats reads.

Definition expiredChats (chats : list Chat.t) (reads : list Z)
  : list Chat.t :=
  filter_reading (λ chat now, isChatExpired (Chat.expiresAt chat) now)
    chats reads.

End WithRuntime.
End ChatListReads.

Module Participant.
Record t := {
  _id : jsstring;
  name : jsstring;
  avatar : option jsstring;
  isOnline : option bool
}.
End Participant.

Module ChatSocket.
Import UseChat.

(** The events [sendTyping()] emits. *)
Definition sendTyping (h : Hook) : list Emit :=
  match chatId h with
  | Some id =>
      if negb (socket h) || negb (truthy_string id) || negb (isConnected h)
      then []
      else if negb (isTyping h) then [typing id] else []
  | None => []
  end.

(** The events [markAsRead()] emits. *)
Definition markAsRead (h : Hook) : list Emit :=
  match chatId h with
  | Some id =>
      if negb (socket h) || negb (truthy_string id) || negb (isConnected h)
      then []
      else [mark_read id]
  | None => []
  end.

(** The chat an emitted event names. *)
Definition chat_of (e : Emit) : jsstring :=
  match e with
  | send_message id _ | typing id | stop_typing id | mark_read id => id
  end.

(** The cached chat of the key [['chats', chatId]]: the chat and its
    [participants]. *)
Record CachedChat := {
  chat : Chat.t;
  participants : list Participant.t
}.

(** The updater [handleUserStatus] passes to [setQueryData]. *)
Definition handleUserStatus (userId : jsstring) (isOnline : bool)
    (old : option CachedChat) : option CachedChat :=
  match old with
  | None => None
  | Some old =>
      Some {| chat := chat old;
              participants :=
                map (λ p, if bool_decide (Participant._id p = userId)
                          then {| Participant._id := Participant._id p;
                                  Participant.name := Participant.name p;
                                  Participant.avatar := Participant.avatar p;
                                  Participant.isOnline := Some isOnline |}
                          else p)
                  (participants old) |}
  end.

End ChatSocket.

(** ** The verification-pending page *)

Module VerificationPending.

Inductive Effect :=
| post_resend_verification (email : jsstring)
| toast_success
| toast_error (description : jsstring).

(** A click on the resend button together with how the request
    settles, or the one-second timer of the countdown firing. *)
Inductive Event :=
| Resend (outcome : Result Api.Error unit)
| Tick.

(** [handleResendEmail], on the [cooldown] state. ([isResending] is
    true only between the request and its settling, while no other
    event of the page can change [cooldown].) *)
Definition handleResendEmail (email : jsstring) (cooldown : Z)
    (outcome : Result Api.Error unit) : Z * list Effect :=
  if 0 <? cooldown then (cooldown, [])
  else
    match outcome with
    | Ok _ => (60, [post_resend_verification email; toast_success])
    | Throw err =>
        (cooldown,
         [post_resend_verification email;
          toast_error (if truthy_string (Api.errorMessage err)
                       then Api.errorMessage err
                       else lit "Please try again later.")])
    end.

(** The countdown effect: while [cooldown > 0] a timer is pending that
    sets [cooldown - 1]. *)
Definition tick (cooldown : Z) : Z :=
  if 0 <? cooldown then cooldown - 1 else cooldown.

Definition step (email : jsstring) (cooldown : Z) (ev : Event)
  : Z * list Effect :=
  match ev with
  | Resend outcome => handleResendEmail email cooldown outcome
  | Tick => (tick cooldown, [])
  end.

(** The requests a run of events sends, each with the number of timer
    ticks that came before it and whether it succeeded; [elapsed] counts
    the ticks so far. *)
Fixpoint requests (email : jsstring) (cooldown elapsed : Z)
    (events : list Event) : list (Z * bool) :=
  match events with
  | [] => []
  | ev :: rest =>
      let next := (step email cooldown ev).1 in
      match ev with
      | Tick => requests email next (elapsed + 1) rest
      | Resend outcome =>
          (if bool_decide ((step email cooldown ev).2 = []) then []
           else [(elapsed, match outcome with Ok _ => true | Throw _ => false end)])
          ++ requests email next elapsed rest
      end
  end.

(** The [cooldown] after a run of events. *)
Definition final (email : jsstring) (cooldown : Z) (events : list Event) : Z :=
  foldl (λ c ev, (step email c ev).1) cooldown events.

End VerificationPending.

(** * Properties *)

(** ** Trimming *)

Section Trim.

Lemma trimStart_split (s : jsstring) :
  ∃ p, s = p ++ trimStart s ∧ Forall (λ c, isWhiteSpace c = true) p.
Proof.
  induction s as [|c r IH]; simpl.
  - by exists [].
  - destruct (isWhiteSpace c) eqn:Hc.
    + destruct IH as (p & Hp & Hws). exists (c :: p). split.
      * simpl. by rewrite <- Hp.
      * by constructor.
    + by exists [].
Qed.

Lemma trimStart_head (s : jsstring) (c : code_unit) (r : jsstring) :
  trimStart s = c :: r → isWhiteSpace c = false.
Proof.
  induction s as [|d t IH]; simpl; [done|].
  destruct (isWhiteSpace d) eqn:Hd; [done|].
  intros [= -> ->]. done.
Qed.

Lemma trimStart_fixed (c : code_unit) (r : jsstring) :
  isWhiteSpace c = false → trimStart (c :: r) = c :: r.
Proof. simpl. by intros ->. Qed.

Lemma trimStart_idem (s : jsstring) : trimStart (trimStart s) = trimStart s.
Proof.
  destruct (trimStart s) as [|c r] eqn:E; [done|].
  apply trimStart_fixed. by eapply trimStart_head.
Qed.

Lemma trimStart_nil (s : jsstring) :
  trimStart s = [] ↔ Forall (λ c, isWhiteSpace c = true) s.
Proof.
  induction s as [|c r IH]; simpl.
  - split; [constructor|done].
  - destruct (isWhiteSpace c) eqn:Hc.
    + rewrite IH. split; [by constructor|by inversion 1].
    + split; [done|]. inversion 1; congruence.
Qed.

Lemma trim_nil (s : jsstring) :
  trim s = [] ↔ Forall (λ c, isWhiteSpace c = true) s.
Proof.
  unfold trim, trimEnd. split.
  - intros E. apply (f_equal reverse) in E.
    rewrite reverse_involutive, reverse_nil in E.
    apply trimStart_nil in E. apply Forall_reverse in E.
    rewrite reverse_involutive in E.
    destruct (trimStart_split s) as (p & Hs & Hp).
    rewrite Hs. apply Forall_app. split; [done|]. done.
  - intros Hws. apply trimStart_nil in Hws. rewrite Hws. done.
Qed.

(** A trimmed string is a fixed point of [trim]. *)
Lemma trim_idem (s : jsstring) : trim (trim s) = trim s.
Proof.
  unfold trim, trimEnd.
  set (u := trimStart s).
  set (v := trimStart (reverse u)).
  assert (Hv : trimStart v = v) by apply trimStart_idem.
  assert (Hu : trimStart (reverse v) = reverse v).
  { destruct (trimStart_split (reverse u)) as (p & Hsplit & _).
    fold v in Hsplit.
    apply (f_equal reverse) in Hsplit.
    rewrite reverse_involutive, reverse_app in Hsplit.
    destruct (reverse v) as [|c r] eqn:E; [done|].
    apply trimStart_fixed.
    apply (trimStart_head s c (r ++ reverse p)).
    fold u. by rewrite Hsplit. }
  rewrite Hu, reverse_involutive, Hv. done.
Qed.

End Trim.

(** ** Expiry checks *)

Section Expiry.
Context `{Runtime}.
Import Reservations UseChat.

Lemma truthy_string_nonempty (s : jsstring) :
  s ≠ [] → truthy_string s = true.
Proof. by destruct s. Qed.

Lemma isReservationExpired_valid (s : jsstring) (t now : Z) :
  s ≠ [] → Date_getTime s = Some t → isReservationExpired s now = (t <? now).
Proof.
  intros Hs Hp. unfold isReservationExpired.
  by rewrite (truthy_string_nonempty s Hs), Hp.
Qed.

Lemma isChatExpired_valid (s : jsstring) (t now : Z) :
  s ≠ [] → Date_getTime s = Some t → isChatExpired s now = (t <? now).
Proof.
  intros Hs Hp. unfold isChatExpired.
  by rewrite (truthy_string_nonempty s Hs), Hp.
Qed.

Lemma getTimeRemaining_valid (s : jsstring) (t now : Z) :
  s ≠ [] → Date_getTime s = Some t → getTimeRemaining s now = Z.max (t - now) 0.
Proof.
  intros Hs Hp. unfold getTimeRemaining.
  rewrite (truthy_string_nonempty s Hs), Hp. simpl.
  destruct (Z.ltb_spec 0 (t - now)); lia.
Qed.

(** C2. At the expiry instant itself ([Date.now()] equal to the parsed
    [expiresAt]) [isReservationExpired] answers [false], and
    [isReservationActive] still answers [true] for a reservation whose
    status upper-cases to ACTIVE, although the expiry instant has been
    reached; on the same input [getTimeRemaining] is [0] and the timer
    badge counts the reservation as expired. Strictly after the instant
    the checks agree. *)
Theorem reservation_expiry_instant (r : Reservation.t) (t : Z) :
  Reservation.expiresAt r ≠ [] →
  Date_getTime (Reservation.expiresAt r) = Some t →
  Reservation.status r ≠ [] →
  toUpperCase (Reservation.status r) = lit "ACTIVE" →
  isReservationExpired (Reservation.expiresAt r) t = false
  ∧ isReservationActive (Some r) t = true
  ∧ getTimeRemaining (Reservation.expiresAt r) t = 0
  ∧ ReservationTimer.isExpired (Reservation.expiresAt r) t = true
  ∧ ∀ now, t < now →
      isReservationExpired (Reservation.expiresAt r) now = true
      ∧ isReservationActive (Some r) now = false.
Proof.
  intros Hne Hp Hst Hup.
  pose proof (truthy_string_nonempty _ Hne) as Htr.
  assert (Hts : truthy_string (Reservation.status r) = true)
    by (by destruct (Reservation.status r)).
  assert (E : isReservationExpired (Reservation.expiresAt r) t = false).
  { rewrite (isReservationExpired_valid _ t) by done. apply Z.ltb_irrefl. }
  assert (G : getTimeRemaining (Reservation.expiresAt r) t = 0).
  { rewrite (getTimeRemaining_valid _ t) by done. lia. }
  repeat split.
  - done.
  - unfold isReservationActive. rewrite Hts, Htr, Hup, E. simpl.
    done.
  - done.
  - unfold ReservationTimer.isExpired. by rewrite G.
  - rewrite (isReservationExpired_valid _ t) by done. by apply Z.ltb_lt.
  - unfold isReservationActive. rewrite Hts, Htr. simpl.
    rewrite (isReservationExpired_valid _ t) by done.
    replace (t <? now) with true by (symmetry; by apply Z.ltb_lt).
    by rewrite andb_false_r.
Qed.

(** C10. An [expiresAt] that is empty or does not parse counts as
    expired for a reservation and as not expired for a chat. *)
Theorem missing_expiry_opposite_defaults (s : jsstring) (now : Z) :
  s = [] ∨ Date_getTime s = None →
  isReservationExpired s now = true ∧ isChatExpired s now = false.
Proof.
  unfold isReservationExpired, isChatExpired.
  intros [-> | ->]; [done|]. by destruct (truthy_string s).
Qed.

End Expiry.

Lemma reservation_expiry_instant_witness :
  let H := Reference.runtime in
  Reservations.isReservationExpired (lit "2025-01-01T00:00:00.000Z")
    1735689600000 = false
  ∧ Reservations.isReservationActive (Some sample_reservation)
      1735689600000 = true
  ∧ Reservations.getTimeRemaining (lit "2025-01-01T00:00:00.000Z")
      1735689600000 = 0
  ∧ ReservationTimer.isExpired (lit "2025-01-01T00:00:00.000Z")
      1735689600000 = true.
Proof.
  intros H.
  destruct (reservation_expiry_instant (H := H) sample_reservation
              1735689600000) as (A & B & C & D & _).
  - discriminate.
  - vm_compute; reflexivity.
  - discriminate.
  - vm_compute; reflexivity.
  - exact (conj A (conj B (conj C D))).
Defined.

Lemma missing_expiry_opposite_defaults_witness :
  let H := Reference.runtime in
  Reservations.isReservationExpired (lit "not a date") 1735689600000 = true
  ∧ UseChat.isChatExpired (lit "not a date") 1735689600000 = false.
Proof.
  intros H.
  apply (missing_expiry_opposite_defaults (H := H)).
  right. vm_compute. reflexivity.
Defined.

(** ** The retention boundary of a chat *)

Section Retention.
Context `{Runtime}.
Import UseChat ChatWindow.

Lemma sendMessage_emits (h : Hook) (id text : jsstring) :
  socket h = true → chatId h = Some id → id ≠ [] → isConnected h = true →
  trim text ≠ [] →
  sendMessage h text = [send_message id (trim text)].
Proof.
  intros Hs Hc Hid Hco Ht. unfold sendMessage.
  rewrite Hc, Hs, Hco, (truthy_string_nonempty id Hid),
    (truthy_string_nonempty _ Ht). done.
Qed.

Lemma handleSendMessage_emits (h : Hook) (st : State) (id : jsstring) :
  socket h = true → chatId h = Some id → id ≠ [] → isConnected h = true →
  isSending st = false → trim (messageText st) ≠ [] →
  handleSendMessage h st
  = stopTyping h ++ [send_message id (trim (messageText st))].
Proof.
  intros Hs Hc Hid Hco Hse Ht. unfold handleSendMessage.
  rewrite (truthy_string_nonempty _ Ht), Hse, Hco. simpl.
  rewrite (sendMessage_emits h id) by (rewrite ?trim_idem; done).
  by rewrite trim_idem.
Qed.

Lemma Math_ceil_div_spec (a b : Z) :
  0 < b →
  (Math_ceil_div a b - 1) * b < a ∧ a ≤ Math_ceil_div a b * b.
Proof.
  intros Hb. unfold Math_ceil_div.
  pose proof (Z_div_mod_eq_full (- a) b) as Hdm.
  pose proof (Z.mod_pos_bound (- a) b Hb) as Hm.
  split; nia.
Qed.

Lemma ceiling_unique (a b n m : Z) :
  0 < b →
  (n - 1) * b < a ∧ a ≤ n * b →
  (m - 1) * b < a ∧ a ≤ m * b →
  n = m.
Proof. intros Hb [? ?] [? ?]. nia. Qed.

(** C8. For a valid [expiresAt] parsing to [t], [getChatExpiryDays] is
    the ceiling of [(t - now) / 86,400,000]: the one integer [n] with
    [(n - 1) * 86,400,000 < t - now ≤ n * 86,400,000]. It is at least 1
    while [now < t], at most 0 once [t ≤ now], and 0 for an empty or
    unparsable [expiresAt]. The chat list and the chat window show this
    number as the days left. *)
Theorem chat_expiry_days_is_ceiling (s : jsstring) (now : Z) :
  (∀ t, s ≠ [] → Date_getTime s = Some t →
     (∀ n, getChatExpiryDays s now = n
           ↔ (n - 1) * 86400000 < t - now ∧ t - now ≤ n * 86400000)
     ∧ (now < t → 1 ≤ getChatExpiryDays s now)
     ∧ (t ≤ now → getChatExpiryDays s now ≤ 0))
  ∧ (s = [] ∨ Date_getTime s = None → getChatExpiryDays s now = 0)
  ∧ (∀ chat, Chat.expiresAt chat = s →
       (ChatList.annotate chat now).1 = getChatExpiryDays s now
       ∧ daysLeft (render chat now) = getChatExpiryDays s now).
Proof.
  split; [|split; [|by intros chat <-]].
  - intros t Hne Hp.
    assert (E : getChatExpiryDays s now = Math_ceil_div (t - now) 86400000).
    { unfold getChatExpiryDays.
      by rewrite (truthy_string_nonempty s Hne), Hp. }
    pose proof (Math_ceil_div_spec (t - now) 86400000 ltac:(lia)) as Hc.
    rewrite E. split; [|split].
    + intros n. split.
      * by intros <-.
      * intros Hn. by apply (ceiling_unique (t - now) 86400000).
    + lia.
    + lia.
  - unfold getChatExpiryDays. intros [-> | ->]; [done|].
    by destruct (truthy_string s).
Qed.

End Retention.

Lemma chat_expiry_days_is_ceiling_witness :
  let H := Reference.runtime in
  UseChat.getChatExpiryDays (lit "2025-01-08T00:00:00.000Z") 1735689600001 = 7
  ∧ UseChat.getChatExpiryDays (lit "2025-01-08T00:00:00.000Z") 1736294400001 = 0
  ∧ UseChat.getChatExpiryDays (lit "soon") 1736294400001 = 0.
Proof.
  intros H.
  destruct (chat_expiry_days_is_ceiling (H := H)
              (lit "2025-01-08T00:00:00.000Z") 1735689600001) as [A _].
  destruct (A 1736294400000) as (A1 & _ & _);
    [discriminate | vm_compute; reflexivity |].
  destruct (chat_expiry_days_is_ceiling (H := H)
              (lit "2025-01-08T00:00:00.000Z") 1736294400001) as [B _].
  destruct (B 1736294400000) as (B1 & _ & _);
    [discriminate | vm_compute; reflexivity |].
  destruct (chat_expiry_days_is_ceiling (H := H)
              (lit "soon") 1736294400001) as [_ C].
  split; [apply A1; lia|]. split; [apply B1; lia|].
  apply C. right. vm_compute. reflexivity.
Defined.

(** ** Receiving messages *)

Section Receive.
Import UseChat.

Lemma seen_iff (m : Message.t) (L : list Message.t) :
  existsb (λ x, bool_decide (Message._id x = Message._id m)) L = true
  ↔ ∃ x, x ∈ L ∧ Message._id x = Message._id m.
Proof.
  rewrite existsb_exists. split.
  - intros (x & Hin & Hx). apply bool_decide_eq_true in Hx.
    exists x. split; [by apply list_elem_of_In|done].
  - intros (x & Hx & Hin). exists x. split; [by apply list_elem_of_In|].
    by apply bool_decide_eq_true.
Qed.

Lemma seen_ids (m : Message.t) (L : list Message.t) :
  (∃ x, x ∈ L ∧ Message._id x = Message._id m) ↔ Message._id m ∈ ids L.
Proof.
  unfold ids. rewrite list_elem_of_fmap. split.
  - intros (x & ? & ?). by exists x.
  - intros (x & ? & ?). by exists x.
Qed.

Lemma handleReceiveMessage_seen (m : Message.t) (L : list Message.t) :
  (∃ x, x ∈ L ∧ Message._id x = Message._id m) →
  handleReceiveMessage m (Some L) = L.
Proof. intros Hin. apply seen_iff in Hin. simpl. by rewrite Hin. Qed.

Lemma handleReceiveMessage_new (m : Message.t) (L : list Message.t) :
  ¬ (∃ x, x ∈ L ∧ Message._id x = Message._id m) →
  handleReceiveMessage m (Some L) = L ++ [m].
Proof.
  intros Hin. simpl.
  destruct (existsb _ L) eqn:E; [|done].
  apply seen_iff in E. done.
Qed.

Lemma seen_dec (m : Message.t) (L : list Message.t) :
  (∃ x, x ∈ L ∧ Message._id x = Message._id m)
  ∨ ¬ (∃ x, x ∈ L ∧ Message._id x = Message._id m).
Proof.
  destruct (existsb (λ x, bool_decide (Message._id x = Message._id m)) L)
    eqn:E.
  - left. by apply seen_iff.
  - right. intros Hs. apply seen_iff in Hs. congruence.
Qed.

Lemma handleReceiveMessage_NoDup (m : Message.t) (L : list Message.t) :
  NoDup (ids L) → NoDup (ids (handleReceiveMessage m (Some L))).
Proof.
  intros Hnd. destruct (seen_dec m L) as [Hin|Hin].
  - by rewrite handleReceiveMessage_seen.
  - rewrite handleReceiveMessage_new by done.
    unfold ids. rewrite fmap_app. simpl.
    apply NoDup_app. split; [done|]. split.
    + intros x Hx Hx'. apply list_elem_of_singleton in Hx'. subst x.
      apply Hin. by apply seen_ids.
    + apply NoDup_singleton.
Qed.

Lemma handleReceiveMessage_prefix (m : Message.t) (L : list Message.t) :
  L `prefix_of` handleReceiveMessage m (Some L).
Proof.
  destruct (seen_dec m L) as [Hin|Hin].
  - by rewrite handleReceiveMessage_seen.
  - rewrite handleReceiveMessage_new by done. by apply prefix_app_r.
Qed.

Lemma receive_all_Some (incoming : list Message.t) (L : list Message.t) :
  NoDup (ids L) →
  ∃ L', receive_all (Some L) incoming = Some L'
        ∧ NoDup (ids L') ∧ L `prefix_of` L'.
Proof.
  revert L. induction incoming as [|m rest IH]; intros L Hnd.
  - by exists L.
  - destruct (IH (handleReceiveMessage m (Some L))) as (L' & E & Hnd' & Hp).
    { by apply handleReceiveMessage_NoDup. }
    exists L'. split; [done|]. split; [done|].
    etrans; [apply (handleReceiveMessage_prefix m)|done].
Qed.

(** C5. The receive handler leaves the cached list [L] as it is when
    some element of [L] has the id of the incoming message [m], and
    otherwise returns [L] with [m] appended at the end. So [L] is always
    a prefix of the result, a list without repeated ids stays without
    repeated ids, and a cache entry filled only by the handler, over any
    run of incoming messages, holds each id at most once. *)
Theorem receive_at_most_once_in_order (L : list Message.t) (m : Message.t) :
  ((∃ x, x ∈ L ∧ Message._id x = Message._id m) →
     handleReceiveMessage m (Some L) = L)
  ∧ (¬ (∃ x, x ∈ L ∧ Message._id x = Message._id m) →
     handleReceiveMessage m (Some L) = L ++ [m])
  ∧ L `prefix_of` handleReceiveMessage m (Some L)
  ∧ (NoDup (ids L) → NoDup (ids (handleReceiveMessage m (Some L))))
  ∧ (∀ incoming,
       NoDup (ids L) →
       ∃ L', receive_all (Some L) incoming = Some L'
             ∧ NoDup (ids L') ∧ L `prefix_of` L')
  ∧ (∀ incoming,
       ∃ L', receive_all None (m :: incoming) = Some L' ∧ NoDup (ids L')
             ∧ [m] `prefix_of` L').
Proof.
  split; [apply handleReceiveMessage_seen|].
  split; [apply handleReceiveMessage_new|].
  split; [apply handleReceiveMessage_prefix|].
  split; [apply handleReceiveMessage_NoDup|].
  split.
  - intros incoming Hnd. by apply receive_all_Some.
  - intros incoming. apply (receive_all_Some incoming [m]).
    apply NoDup_singleton.
Qed.

End Receive.

Lemma receive_at_most_once_in_order_witness :
  let a := sample_message "m1" "hello" in
  let b := sample_message "m2" "are you there?" in
  let b' := sample_message "m2" "are you there? (again)" in
  UseChat.handleReceiveMessage b' (Some [a; b]) = [a; b]
  ∧ UseChat.handleReceiveMessage b (Some [a]) = [a; b]
  ∧ NoDup (UseChat.ids (UseChat.handleReceiveMessage b (Some [a]))).
Proof.
  intros a b b'.
  destruct (receive_at_most_once_in_order [a; b] b') as (A & _).
  destruct (receive_at_most_once_in_order [a] b) as (_ & B & _ & C & _).
  split; [|split].
  - apply A. exists b. split; [|reflexivity].
    apply list_elem_of_In. right. left. reflexivity.
  - apply B. intros (x & Hx & Hid).
    apply list_elem_of_In in Hx. destruct Hx as [<- | []]. discriminate Hid.
  - apply C. apply NoDup_singleton.
Defined.

(** ** Validation before a reservation is requested *)

Section CreateReservation.
Context `{Runtime}.
Import Reservations.

Lemma isHexDigit_table :
  Forall (λ n : nat,
            isHexDigit (N.of_nat n)
            = bool_decide (N.of_nat n ∈ lit "0123456789abcdefABCDEF"))
    (seq 0 103).
Proof. apply (bool_decide_unpack _). vm_compute. exact I. Qed.

Lemma hex_alphabet_bound :
  Forall (λ c, (c < 103)%N) (lit "0123456789abcdefABCDEF").
Proof. apply (bool_decide_unpack _). vm_compute. exact I. Qed.

Lemma isHexDigit_spec (c : code_unit) :
  isHexDigit c = true ↔ c ∈ lit "0123456789abcdefABCDEF".
Proof.
  destruct (decide (c < 103)%N) as [Hlt|Hge].
  - pose proof isHexDigit_table as T.
    rewrite Forall_forall in T.
    specialize (T (N.to_nat c)).
    rewrite N2Nat.id in T. rewrite T.
    + apply bool_decide_eq_true.
    + apply elem_of_seq. lia.
  - split.
    + unfold isHexDigit. intros Hc.
      apply orb_true_iff in Hc as [Hc|Hc];
        [apply orb_true_iff in Hc as [Hc|Hc]|];
        apply andb_true_iff in Hc as [_ ?%N.leb_le]; lia.
    + intros Hc. pose proof hex_alphabet_bound as B.
      rewrite Forall_forall in B. apply B in Hc. lia.
Qed.

Lemma match_hex_spec (n : nat) (s rest : jsstring) :
  match_hex n s = Some rest
  ↔ ∃ p, s = p ++ rest ∧ length p = n
         ∧ Forall (λ c, isHexDigit c = true) p.
Proof.
  revert s. induction n as [|n IH]; intros s; simpl.
  - split.
    + intros [= ->]. by exists [].
    + intros (p & -> & Hl & _). by destruct p.
  - destruct s as [|c r].
    + split; [done|]. intros (p & Hs & Hl & _).
      destruct p; [done|]. by destruct rest.
    + destruct (isHexDigit c) eqn:Hc.
      * rewrite IH. split.
        -- intros (p & -> & Hl & Hp). exists (c :: p).
           split; [done|]. split; [by simpl; rewrite Hl|by constructor].
        -- intros (p & Hs & Hl & Hp). destruct p as [|d p]; [done|].
           simpl in Hs. injection Hs as <- ->.
           exists p. split; [done|]. split; [by simpl in Hl; lia|].
           by inversion Hp.
      * split; [done|]. intros (p & Hs & Hl & Hp).
        destruct p as [|d p]; [done|]. simpl in Hs. injection Hs as <- ->.
        inversion Hp; congruence.
Qed.

(** [isValidObjectId] accepts exactly the strings of 24 hexadecimal
    characters. *)
Lemma isValidObjectId_spec (id : jsstring) :
  isValidObjectId id = true
  ↔ length id = 24%nat ∧ Forall (λ c, c ∈ lit "0123456789abcdefABCDEF") id.
Proof.
  unfold isValidObjectId.
  transitivity (match_hex 24 id = Some []).
  { destruct (match_hex 24 id) as [[|]|]; split; intros; done. }
  rewrite match_hex_spec. split.
  - intros (p & -> & Hl & Hp). rewrite app_nil_r. split; [done|].
    eapply Forall_impl; [exact Hp|]. intros c. apply isHexDigit_spec.
  - intros [Hl Hp]. exists id. rewrite app_nil_r. split; [done|].
    split; [done|].
    eapply Forall_impl; [exact Hp|]. intros c. apply isHexDigit_spec.
Qed.

(** C6. If [productId] is not a string of 24 hexadecimal characters, or
    [durationMinutes] is not one of 30, 60, 120, 1440, the mutation
    function throws one of its two validation errors and no request is
    made; if both checks pass it makes the POST to [/reservations] with
    the data unchanged. *)
Theorem create_reservation_validates_locally (data : CreateReservationData.t) :
  let productId := CreateReservationData.productId data in
  let duration := CreateReservationData.durationMinutes data in
  let is_object_id :=
    length productId = 24%nat
    ∧ Forall (λ c, c ∈ lit "0123456789abcdefABCDEF") productId in
  (¬ is_object_id ∨ duration ∉ [30; 60; 120; 1440] →
     useCreateReservation_mutationFn data
     = Throw (Api.PlainError (lit "Invalid product ID"))
     ∨ useCreateReservation_mutationFn data
       = Throw (Api.PlainError
                  (lit "Invalid duration. Must be 30, 60, 120, or 1440 minutes")))
  ∧ (is_object_id → duration ∈ [30; 60; 120; 1440] →
       useCreateReservation_mutationFn data
       = Ok (POST (lit "/reservations") data)).
Proof.
  intros productId duration is_object_id.
  unfold useCreateReservation_mutationFn. fold productId duration.
  pose proof (isValidObjectId_spec productId) as Hid. fold is_object_id in Hid.
  split.
  - intros Hbad.
    destruct (isValidObjectId productId) eqn:Ev.
    + destruct (truthy_string productId); simpl; [|by left].
      destruct Hbad as [Hbad|Hbad]; [by destruct Hbad; apply Hid|].
      unfold includes. rewrite (bool_decide_eq_false_2 _ Hbad).
      rewrite orb_true_r. by right.
    + rewrite orb_true_r. by left.
  - intros Hgood Hdur.
    apply Hid in Hgood as Ev. rewrite Ev.
    assert (Hne : truthy_string productId = true).
    { destruct Hgood as [Hl _]. by destruct productId. }
    rewrite Hne. simpl.
    unfold includes. rewrite (bool_decide_eq_true_2 _ Hdur).
    assert (Hz : (duration =? 0) = false).
    { apply Z.eqb_neq. intros E. rewrite E in Hdur.
      apply list_elem_of_In in Hdur. simpl in Hdur. lia. }
    by rewrite Hz.
Qed.

End CreateReservation.

Lemma create_reservation_validates_locally_witness :
  let good := {| CreateReservationData.productId := lit "65f0c0ffee0123456789ABCD";
                 CreateReservationData.durationMinutes := 120 |} in
  let short_id := {| CreateReservationData.productId := lit "65f0c0ffee";
                     CreateReservationData.durationMinutes := 120 |} in
  let odd_duration :=
    {| CreateReservationData.productId := lit "65f0c0ffee0123456789ABCD";
       CreateReservationData.durationMinutes := 45 |} in
  Reservations.useCreateReservation_mutationFn good
  = Ok (Reservations.POST (lit "/reservations") good)
  ∧ (∃ e, Reservations.useCreateReservation_mutationFn short_id = Throw e)
  ∧ (∃ e, Reservations.useCreateReservation_mutationFn odd_duration = Throw e).
Proof.
  intros good short_id odd_duration.
  destruct (create_reservation_validates_locally good) as [_ A].
  destruct (create_reservation_validates_locally short_id) as [B _].
  destruct (create_reservation_validates_locally odd_duration) as [C _].
  split; [|split].
  - apply A.
    + split; [reflexivity|]. apply (bool_decide_unpack _). vm_compute. exact I.
    + apply (bool_decide_unpack _). vm_compute. exact I.
  - destruct B as [E|E]; [|by eexists|by eexists].
    left. intros [Hl _]. discriminate Hl.
  - destruct C as [E|E]; [|by eexists|by eexists].
    right. intros Hin. apply list_elem_of_In in Hin. simpl in Hin. lia.
Defined.

(** ** Sending a message *)

Section Send.
Import UseChat ChatWindow.

Lemma sendMessage_inv (h : Hook) (message : jsstring) (e : Emit) :
  e ∈ sendMessage h message →
  socket h = true ∧ isConnected h = true ∧ trim message ≠ []
  ∧ ∃ id, chatId h = Some id ∧ id ≠ [] ∧ e = send_message id (trim message).
Proof.
  unfold sendMessage. destruct (chatId h) as [id|]; [|by intros ?%elem_of_nil].
  destruct (socket h), (truthy_string id) eqn:Hid, (isConnected h),
    (truthy_string (trim message)) eqn:Ht; simpl;
    try (by intros ?%elem_of_nil).
  intros ->%list_elem_of_singleton.
  repeat split; [by destruct (trim message)|].
  exists id. by destruct id.
Qed.

Lemma stopTyping_inv (h : Hook) (e : Emit) :
  e ∈ stopTyping h → ∃ id, e = stop_typing id.
Proof.
  unfold stopTyping. destruct (chatId h) as [id|]; [|by intros ?%elem_of_nil].
  destruct (_ || _); [by intros ?%elem_of_nil|].
  destruct (isTyping h); [|by intros ?%elem_of_nil].
  intros ->%list_elem_of_singleton. by exists id.
Qed.

(** C7. [sendMessage] emits nothing but [send_message] events, and only
    with a socket that is connected and a non-empty trimmed body, which
    is the body it emits; for a string of white space only (the empty
    string included) it emits nothing. The same holds along the send
    path of the chat window: every [send_message] it emits carries the
    non-empty trimmed text of the input. *)
Theorem no_empty_message_body_sent (h : Hook) (message : jsstring) :
  (∀ e, e ∈ sendMessage h message →
     socket h = true ∧ isConnected h = true ∧ trim message ≠ []
     ∧ ∃ id, e = send_message id (trim message))
  ∧ (Forall (λ c, isWhiteSpace c = true) message →
     sendMessage h message = [])
  ∧ (∀ st id body,
       messageText st = message →
       send_message id body ∈ handleSendMessage h st →
       body = trim message ∧ body ≠ []).
Proof.
  split; [|split].
  - intros e He. apply sendMessage_inv in He as (? & ? & ? & id & _ & _ & ?).
    repeat split; [done..|]. by exists id.
  - intros Hws. apply trim_nil in Hws. unfold sendMessage. rewrite Hws.
    destruct (chatId h); [|done]. simpl. by rewrite !orb_true_r.
  - intros st id body <- Hin. unfold handleSendMessage in Hin.
    destruct (_ || _); [by apply elem_of_nil in Hin|].
    apply elem_of_app in Hin as [Hin|Hin].
    + apply stopTyping_inv in Hin as (? & ?). done.
    + apply sendMessage_inv in Hin as (_ & _ & Hne & id' & _ & _ & [= -> ->]).
      by rewrite trim_idem in *.
Qed.

End Send.

Lemma no_empty_message_body_sent_witness :
  UseChat.sendMessage sample_hook (lit "  hello there ")
  = [UseChat.send_message (lit "65f0c0ffee0123456789ab01") (lit "hello there")]
  ∧ UseChat.sendMessage sample_hook [32; 9; 10; 160; 8202]%N = [].
Proof.
  destruct (no_empty_message_body_sent sample_hook [32; 9; 10; 160; 8202]%N)
    as (_ & A & _).
  split; [reflexivity|].
  apply A. apply (bool_decide_unpack _). vm_compute. exact I.
Defined.

(** ** Posting across the retention boundary *)

Section Posting.
Context `{Runtime}.
Import UseChat ChatWindow ChatPosting.

Lemma handleSendMessage_events (h : Hook) (st : State) (e : Emit) :
  e ∈ handleSendMessage h st →
  (∃ id, e = stop_typing id)
  ∨ (∃ id body, e = send_message id body ∧ body ≠ []).
Proof.
  unfold handleSendMessage.
  destruct (_ || _); [by intros ?%elem_of_nil|].
  intros [Hin|Hin]%elem_of_app.
  - left. by apply stopTyping_inv in Hin.
  - right. apply sendMessage_inv in Hin as (_ & _ & Hne & id & _ & _ & ->).
    by exists id, (trim (trim (messageText st))).
Qed.

Lemma dispatch_events (chat : Chat.t) (rendered : Z) (h : Hook) (st : State)
    (ev : UiEvent) (e : Emit) :
  e ∈ dispatch chat rendered h st ev →
  (∃ id, e = stop_typing id)
  ∨ (∃ id body, e = send_message id body ∧ body ≠ []).
Proof.
  unfold dispatch. destruct (showInput _); [|by intros ?%elem_of_nil].
  destruct ev as [|key shiftKey].
  - destruct (_ || _); [by intros ?%elem_of_nil|].
    apply handleSendMessage_events.
  - destruct (_ || _); [by intros ?%elem_of_nil|].
    destruct (_ && _); [|by intros ?%elem_of_nil].
    apply handleSendMessage_events.
Qed.

Lemma answers_stopTyping (session : SessionManager.Session) (posted : Z)
    (h : Hook) :
  answers session posted (stopTyping h) = [].
Proof.
  unfold stopTyping. destruct (chatId h); [|done].
  destruct (_ || _); [done|]. by destruct (isTyping h).
Qed.

(** C3. For a chat whose [expiresAt] is valid and denotes the retention
    expiry of its session: [isChatExpired] holds exactly when the
    current time is strictly greater than the expiry. A post that
    reaches the server strictly after the expiry is rejected: a page
    rendered after the expiry sends nothing (the input is not there),
    and whatever a page rendered earlier still sends is answered with
    Gone. A post strictly before the expiry, from a connected client
    with a non-blank text, is accepted with the trimmed text as its
    body, by the send button and by the Enter key. *)
Theorem chat_retention_boundary (chat : Chat.t)
    (session : SessionManager.Session) (rendered posted : Z) :
  Chat.expiresAt chat ≠ [] →
  Date_getTime (Chat.expiresAt chat) = Some (SessionManager.expires session) →
  rendered ≤ posted →
  (∀ now, isChatExpired (Chat.expiresAt chat) now = true
          ↔ SessionManager.expires session < now)
  ∧ (SessionManager.expires session < posted →
     ∀ h st ev,
       (∀ answer, answer ∈ post chat session rendered posted h st ev →
                  answer = Throw SessionManager.Gone)
       ∧ (SessionManager.expires session < rendered →
          dispatch chat rendered h st ev = []))
  ∧ (posted < SessionManager.expires session →
     ∀ h st id,
       socket h = true → chatId h = Some id → id ≠ [] →
       isConnected h = true → isSending st = false →
       trim (messageText st) ≠ [] →
       post chat session rendered posted h st ClickSend
       = [Ok (trim (messageText st))]
       ∧ post chat session rendered posted h st (KeyDown (lit "Enter") false)
         = [Ok (trim (messageText st))]).
Proof.
  intros Hne Hp Hrp.
  set (t := SessionManager.expires session) in *.
  assert (E : ∀ now, isChatExpired (Chat.expiresAt chat) now = (t <? now))
    by (intros now; by apply isChatExpired_valid).
  split; [|split].
  - intros now. rewrite E. apply Z.ltb_lt.
  - intros Hlate h st ev. split.
    + intros answer Hin. unfold post, answers in Hin.
      apply list_elem_of_In, in_flat_map in Hin as (e & He & Ha).
      apply list_elem_of_In, dispatch_events in He
        as [(id & ->)|(id & body & -> & Hbody)]; [done|].
      destruct Ha as [<-|[]]. unfold SessionManager.postMessage.
      rewrite (truthy_string_nonempty _ Hbody). cbn [negb]. fold t.
      by replace (t <? posted) with true by (symmetry; by apply Z.ltb_lt).
    + intros Hr. unfold dispatch, render. cbn [showInput]. rewrite E.
      by replace (t <? rendered) with true by (symmetry; by apply Z.ltb_lt).
  - intros Hearly h st id Hs Hc Hid Hco Hse Ht.
    assert (D : dispatch chat rendered h st ClickSend
                = stopTyping h ++ [send_message id (trim (messageText st))]
                ∧ dispatch chat rendered h st (KeyDown (lit "Enter") false)
                  = stopTyping h ++ [send_message id (trim (messageText st))]).
    { unfold dispatch, render. cbn [showInput]. rewrite E.
      replace (t <? rendered) with false by (symmetry; apply Z.ltb_ge; lia).
      cbn [negb]. rewrite (truthy_string_nonempty _ Ht), Hco, Hse. simpl.
      by rewrite (handleSendMessage_emits h st id). }
    destruct D as [D1 D2]. unfold post. rewrite D1, D2.
    unfold answers. rewrite flat_map_app.
    fold (answers session posted (stopTyping h)).
    rewrite answers_stopTyping. cbn [flat_map app].
    unfold SessionManager.postMessage.
    rewrite (truthy_string_nonempty _ Ht). cbn [negb]. fold t.
    by replace (t <? posted) with false by (symmetry; apply Z.ltb_ge; lia).
Qed.

End Posting.

Lemma chat_retention_boundary_witness :
  let H := Reference.runtime in
  let t := 1736294400000 in
  let session :=
    {| SessionManager.initiator := lit "65f0c0ffee0123456789ab02";
       SessionManager.counterparty := lit "65f0c0ffee0123456789ab03";
       SessionManager.product := Some (lit "65f0c0ffee0123456789abce");
       SessionManager.created := t - 604800000;
       SessionManager.expires := t |} in
  ChatPosting.post sample_chat session (t + 1) (t + 1) sample_hook sample_state
    ChatWindow.ClickSend = []
  ∧ ChatPosting.post sample_chat session (t - 1000) (t + 1) sample_hook
      sample_state ChatWindow.ClickSend = [Throw SessionManager.Gone]
  ∧ ChatPosting.post sample_chat session (t - 2000) (t - 1000) sample_hook
      sample_state ChatWindow.ClickSend
    = [Ok (lit "is it still available?")].
Proof.
  intros H t session.
  destruct (chat_retention_boundary (H := H) sample_chat session (t + 1) (t + 1))
    as (_ & A & _); [discriminate | vm_compute; reflexivity | lia |].
  destruct (chat_retention_boundary (H := H) sample_chat session (t - 1000)
              (t + 1))
    as (_ & B & _); [discriminate | vm_compute; reflexivity | lia |].
  destruct (chat_retention_boundary (H := H) sample_chat session (t - 2000)
              (t - 1000))
    as (_ & _ & C); [discriminate | vm_compute; reflexivity | lia |].
  split; [|split].
  - destruct (A ltac:(simpl; lia) sample_hook sample_state ChatWindow.ClickSend)
      as [_ A2].
    unfold ChatPosting.post. rewrite A2; [reflexivity | simpl; lia].
  - destruct (B ltac:(simpl; lia) sample_hook sample_state ChatWindow.ClickSend)
      as [B1 _].
    vm_compute. reflexivity.
  - destruct (C ltac:(simpl; lia) sample_hook sample_state
                (lit "65f0c0ffee0123456789ab01")) as [C1 _];
      [reflexivity | reflexivity | discriminate | reflexivity | reflexivity
      | discriminate | exact C1].
Defined.

(** ** The list of my reservations *)

Section MyReservations.
Context `{Runtime}.
Import Reservations.

Lemma get_string (k : jsstring) (v : value) :
  is_string (get k v) = true →
  ∃ fields s, v = VObject fields ∧ fields !! k = Some (VString s).
Proof.
  destruct v as [| | | | |items|fields]; simpl; try done.
  destruct (fields !! k) as [[]|] eqn:E; simpl; try done.
  intros _. by eexists _, _.
Qed.

(** What [isValidReservation] guarantees about a value it accepts. *)
Lemma isValidReservation_sound (v : value) :
  isValidReservation v = true →
  ∃ fields id p u st e t,
    v = VObject fields
    ∧ fields !! lit "_id" = Some (VString id)
    ∧ fields !! lit "productId" = Some (VString p)
    ∧ fields !! lit "userId" = Some (VString u)
    ∧ fields !! lit "status" = Some (VString st)
    ∧ fields !! lit "expiresAt" = Some (VString e)
    ∧ Date_getTime e = Some t.
Proof.
  unfold isValidReservation.
  destruct (negb (truthy v) || negb (is_object_tag v)); [done|].
  destruct (is_string (get (lit "_id") v)) eqn:E1; [|done].
  destruct (is_string (get (lit "productId") v)) eqn:E2; [|done].
  destruct (is_string (get (lit "userId") v)) eqn:E3; [|done].
  destruct (is_string (get (lit "status") v)) eqn:E4; [|done].
  destruct (is_string (get (lit "expiresAt") v)) eqn:E5; [|done].
  simpl.
  apply get_string in E1 as (fields & id & -> & F1).
  apply get_string in E2 as (? & p & [= <-] & F2).
  apply get_string in E3 as (? & u & [= <-] & F3).
  apply get_string in E4 as (? & st & [= <-] & F4).
  apply get_string in E5 as (? & e & [= <-] & F5).
  unfold get at 1. rewrite F5. simpl.
  destruct (Date_getTime e) as [t|] eqn:Et; [|done].
  intros _. by exists fields, id, p, u, st, e, t.
Qed.

Lemma useMyReservations_try_returns (v : value) :
  ∃ l, useMyReservations_try (Ok v) = Ok l.
Proof.
  unfold useMyReservations_try. simpl.
  destruct v as [| |b|x|s|items|fields]; simpl; try by eexists.
  - destruct b; by eexists.
  - destruct (negb (x =? 0)); by eexists.
  - destruct (truthy_string s); by eexists.
  - destruct (bool_decide _); [|by eexists].
    destruct (default VUndefined _); by eexists.
Qed.

(** C9. Whatever [api.get] yields, the query function returns a list
    (the [try] block raises nothing of its own on a received response,
    and a rejection is caught): the empty list when the fetch fails or
    the response is neither an array nor an object whose
    [reservations] is an array, and otherwise the elements of that
    array that pass [isValidReservation]. Every element returned passes
    [isValidReservation], hence is an object with string [_id],
    [productId], [userId], [status] and a string [expiresAt] that
    parses as a date. *)
Theorem my_reservations_total_and_sanitized (fetched : Result Api.Error value) :
  Forall (λ v, isValidReservation v = true) (useMyReservations_queryFn fetched)
  ∧ (∀ v, v ∈ useMyReservations_queryFn fetched →
       ∃ fields id p u st e t,
         v = VObject fields
         ∧ fields !! lit "_id" = Some (VString id)
         ∧ fields !! lit "productId" = Some (VString p)
         ∧ fields !! lit "userId" = Some (VString u)
         ∧ fields !! lit "status" = Some (VString st)
         ∧ fields !! lit "expiresAt" = Some (VString e)
         ∧ Date_getTime e = Some t)
  ∧ (∀ response, fetched = Ok response →
       ∃ l, useMyReservations_try fetched = Ok l)
  ∧ (∀ e, fetched = Throw e → useMyReservations_queryFn fetched = [])
  ∧ (∀ items, fetched = Ok (VArray items) →
       useMyReservations_queryFn fetched
       = List.filter isValidReservation items)
  ∧ (∀ fields res,
       fetched = Ok (VObject fields) →
       fields !! lit "reservations" = Some (VArray res) →
       useMyReservations_queryFn fetched
       = List.filter isValidReservation res)
  ∧ (∀ response,
       fetched = Ok response →
       (∀ items, response ≠ VArray items) →
       (∀ fields res, response = VObject fields →
                      fields !! lit "reservations" ≠ Some (VArray res)) →
       useMyReservations_queryFn fetched = []).
Proof.
  assert (Hall : Forall (λ v, isValidReservation v = true)
                   (useMyReservations_queryFn fetched)).
  { unfold useMyReservations_queryFn, try_catch.
    destruct (useMyReservations_try fetched) as [l|e] eqn:E; [|constructor].
    unfold useMyReservations_try in E.
    destruct fetched as [response|e]; simpl in E; [|done].
    match type of E with
    | bind ?r _ = _ => destruct r as [rs|e]; simpl in E; [|done]
    end.
    injection E as <-.
    apply Forall_forall. intros v Hv.
    apply list_elem_of_In, filter_In in Hv. tauto. }
  split; [done|]. split.
  { intros v Hv. rewrite Forall_forall in Hall.
    by apply isValidReservation_sound, Hall. }
  split.
  { intros response ->. apply useMyReservations_try_returns. }
  split.
  { by intros e ->. }
  split.
  { by intros items ->. }
  split.
  { intros fields res -> Hres.
    unfold useMyReservations_queryFn, useMyReservations_try. simpl.
    rewrite bool_decide_eq_true_2 by (by rewrite Hres).
    by rewrite Hres. }
  intros response -> Harr Hobj.
  unfold useMyReservations_queryFn, useMyReservations_try. simpl.
  destruct response as [| |b|x|s|items|fields]; simpl; try done.
  - by destruct b.
  - by destruct (negb (x =? 0)).
  - by destruct (truthy_string s).
  - by destruct (Harr items).
  - destruct (bool_decide _); [|done].
    destruct (fields !! lit "reservations") as [[]|] eqn:E; simpl; try done.
    by destruct (Hobj fields items).
Qed.

End MyReservations.

Lemma my_reservations_total_and_sanitized_witness :
  let H := Reference.runtime in
  let good := sample_reservation_json "2025-01-01T00:00:00.000Z" in
  let bad := sample_reservation_json "tomorrow" in
  Reservations.useMyReservations_queryFn
    (Ok (VObject {[ lit "reservations" := VArray [bad; good; VNull] ]}))
  = [good]
  ∧ Reservations.useMyReservations_queryFn (Ok (VString (lit "<html>"))) = [].
Proof.
  intros H good bad.
  destruct (my_reservations_total_and_sanitized (H := H)
              (Ok (VObject {[ lit "reservations" := VArray [bad; good; VNull] ]})))
    as (_ & _ & _ & _ & _ & A & _).
  destruct (my_reservations_total_and_sanitized (H := H)
              (Ok (VString (lit "<html>"))))
    as (_ & _ & _ & _ & _ & _ & B).
  split.
  - rewrite (A _ [bad; good; VNull] eq_refl); [|reflexivity].
    vm_compute. reflexivity.
  - apply (B _ eq_refl); [discriminate|discriminate].
Defined.

(** ** Contacting a seller twice *)

Section Sessions.
Import SessionManager.








End Sessions.

Section ContactSeller.
Import ContactSellerButton ChatFacade.
Context (render_id : N → jsstring) (cannot_read_id : jsstring).




End ContactSeller.



(** ** One active lease per product *)

Section Leases.
Import LeaseManager.

Lemma getLeaseForProduct_Some (st : gmap N Lease) (p : jsstring)
    (i : N) (l : Lease) :
  getLeaseForProduct st p = Some (i, l) →
  st !! i = Some l ∧ status l = ACTIVE ∧ product l = p.
Proof.
  unfold getLeaseForProduct. intros Hh.
  apply head_Some_elem_of, list_elem_of_In, filter_In in Hh as [Hin Hact].
  apply list_elem_of_In, elem_of_map_to_list in Hin.
  unfold is_active_for in Hact. simpl in Hact.
  apply andb_true_iff in Hact as [?%bool_decide_eq_true ?%bool_decide_eq_true].
  done.
Qed.

Lemma getLeaseForProduct_None (st : gmap N Lease) (p : jsstring)
    (i : N) (l : Lease) :
  getLeaseForProduct st p = None →
  st !! i = Some l → status l = ACTIVE → product l ≠ p.
Proof.
  unfold getLeaseForProduct. intros Hh Hi Hs Hp.
  apply head_None in Hh.
  assert (Hin : In (i, l)
                  (List.filter (is_active_for p) (map_to_list st))).
  { apply filter_In. split.
    - by apply list_elem_of_In, elem_of_map_to_list.
    - unfold is_active_for. simpl.
      by rewrite !bool_decide_eq_true_2. }
  rewrite Hh in Hin. done.
Qed.

Lemma getLeaseForProduct_active (st : gmap N Lease) (i : N)
    (l : Lease) :
  at_most_one_active st →
  st !! i = Some l → status l = ACTIVE →
  getLeaseForProduct st (product l) = Some (i, l).
Proof.
  intros Hinv Hi Hs.
  destruct (getLeaseForProduct st (product l)) as [[j lj]|] eqn:E.
  - apply getLeaseForProduct_Some in E as (Hj & Hsj & Hpj).
    assert (j = i) as -> by (by eapply Hinv).
    congruence.
  - by destruct (getLeaseForProduct_None st (product l) i l).
Qed.

Lemma createLease_invariant (st : gmap N Lease) (now : Z)
    (p h : jsstring) (d : Z) :
  at_most_one_active st → at_most_one_active (createLease st now p h d).2.
Proof.
  intros Hinv. unfold createLease.
  destruct (negb _); [done|].
  destruct (getLeaseForProduct st p) as [[j lj]|] eqn:E; [done|]. simpl.
  assert (Hfresh : st !! fresh (dom st) = None)
    by apply not_elem_of_dom, is_fresh.
  intros i j li lj Hi Hj Hsi Hsj Hp.
  apply lookup_insert_Some in Hi as [[<- <-]|[Hni Hi]];
    apply lookup_insert_Some in Hj as [[<- <-]|[Hnj Hj]].
  - done.
  - simpl in Hp. by destruct (getLeaseForProduct_None st p j lj).
  - simpl in Hp. by destruct (getLeaseForProduct_None st p i li).
  - by eapply Hinv.
Qed.

Lemma cancelLease_invariant (st : gmap N Lease) (k : N)
    (r : jsstring) :
  at_most_one_active st → at_most_one_active (cancelLease st k r).2.
Proof.
  intros Hinv. unfold cancelLease.
  destruct (st !! k) as [lease|] eqn:Ek; [|done].
  destruct (negb _); [done|]. destruct (negb _); [done|]. simpl.
  intros i j li lj Hi Hj Hsi Hsj Hp.
  apply lookup_insert_Some in Hi as [[<- <-]|[Hni Hi]]; [done|].
  apply lookup_insert_Some in Hj as [[<- <-]|[Hnj Hj]]; [done|].
  by eapply Hinv.
Qed.

Lemma expire_active (now : Z) (l : Lease) :
  status (expire now l) = ACTIVE →
  expire now l = l ∧ status l = ACTIVE.
Proof.
  unfold expire. destruct (_ && _); [done|]. done.
Qed.

Lemma sweep_invariant (st : gmap N Lease) (now : Z) :
  at_most_one_active st → at_most_one_active (sweep st now).
Proof.
  intros Hinv i j li lj Hi Hj Hsi Hsj Hp. unfold sweep in *.
  apply lookup_fmap_Some in Hi as (li' & <- & Hi).
  apply lookup_fmap_Some in Hj as (lj' & <- & Hj).
  apply expire_active in Hsi as [Ei Hsi].
  apply expire_active in Hsj as [Ej Hsj].
  rewrite Ei, Ej in Hp. by eapply Hinv.
Qed.

Lemma step_invariant (st : gmap N Lease) (op : Z * Op) :
  at_most_one_active st → at_most_one_active (step st op).
Proof.
  intros Hinv. destruct op as [now [p h d|k r|]]; simpl.
  - by apply createLease_invariant.
  - by apply cancelLease_invariant.
  - by apply sweep_invariant.
Qed.

Lemma foldl_step_invariant (trace : list (Z * Op)) (st : gmap N Lease) :
  at_most_one_active st → at_most_one_active (foldl step st trace).
Proof.
  revert st. induction trace as [|op rest IH]; intros st Hinv; [done|].
  simpl. by apply IH, step_invariant.
Qed.

(** C1. In every store the lease manager can reach from the empty
    store, through any interleaving of create, cancel and sweep
    requests, each product has at most one ACTIVE lease. In such a
    store, while lease [i] is ACTIVE for a product, an attempt to
    create a lease for that product fails and leaves the store as it
    is; with one of the four durations the failure is a Conflict that
    carries [i]. *)
Theorem one_active_lease_per_product (trace : list (Z * Op)) :
  at_most_one_active (run trace)
  ∧ ∀ (i : N) (l : Lease) (now : Z) (holderId : jsstring) (d : Z),
      run trace !! i = Some l → status l = ACTIVE →
      (∃ e, createLease (run trace) now (product l) holderId d
            = (Throw e, run trace))
      ∧ (d ∈ [30; 60; 120; 1440] →
         createLease (run trace) now (product l) holderId d
         = (Throw (Conflict (Some i)), run trace)).
Proof.
  assert (Hinv : at_most_one_active (run trace)).
  { apply foldl_step_invariant. intros i j li lj Hi.
    by rewrite lookup_empty in Hi. }
  split; [done|].
  intros i l now holderId d Hi Hs.
  pose proof (getLeaseForProduct_active _ i l Hinv Hi Hs) as E.
  unfold createLease. rewrite E.
  split.
  - destruct (negb _); by eexists.
  - intros Hd. by rewrite (bool_decide_eq_true_2 _ Hd).
Qed.

End Leases.

Lemma one_active_lease_per_product_witness :
  let trace :=
    [(0, LeaseManager.CreateLease (lit "p1") (lit "alice") 30);
     (5, LeaseManager.CreateLease (lit "p2") (lit "bob") 60);
     (1800000, LeaseManager.Sweep);
     (1800001, LeaseManager.CreateLease (lit "p1") (lit "bob") 120)] in
  LeaseManager.createLease (LeaseManager.run trace) 1800002
    (lit "p1") (lit "carol") 1440
  = (Throw (LeaseManager.Conflict (Some 2%N)), LeaseManager.run trace).
Proof.
  intros trace.
  destruct (one_active_lease_per_product trace) as [_ A].
  destruct (A 2%N
              {| LeaseManager.product := lit "p1";
                 LeaseManager.holder := lit "bob";
                 LeaseManager.created := 1800001;
                 LeaseManager.durationMinutes := 120;
                 LeaseManager.expires := 1800001 + 120 * 60000;
                 LeaseManager.status := LeaseManager.ACTIVE |}
              1800002 (lit "carol") 1440) as [_ B].
  - vm_compute. reflexivity.
  - reflexivity.
  - apply B. apply (bool_decide_unpack _). vm_compute. exact I.
Defined.

(** * Further properties of the code *)

(** ** The remaining time and its display *)

Section Display.
Context `{Runtime}.
Import Reservations ReservationDisplay.

Lemma getTimeRemaining_nonneg (s : jsstring) (now : Z) :
  0 ≤ getTimeRemaining s now.
Proof.
  unfold getTimeRemaining. destruct (negb _); [done|].
  destruct (Date_getTime s) as [t|]; [|done]. simpl.
  destruct (Z.ltb_spec 0 (t - now)); lia.
Qed.

Lemma ends_differently (x : jsstring) (c : code_unit) (y : jsstring) (d : code_unit) :
  c ≠ d → x ++ [c] ≠ y ++ [d].
Proof.
  intros Hcd E. apply (f_equal last) in E. rewrite !last_snoc in E.
  congruence.
Qed.

(** X1. [formatTimeRemaining] prints "Expired" exactly when no time
    remains. Otherwise it prints the remaining time [R] (in
    milliseconds) rounded down to its two leading units: seconds below
    a minute, minutes and seconds below an hour, hours and minutes
    below a day, days and hours from a day on. The second number stays
    below 60 (24 for hours), and the printed duration never exceeds [R]
    and falls short of it by less than one of its smaller unit. *)
Theorem formatTimeRemaining_rounds_down (s : jsstring) (now : Z) :
  let R := getTimeRemaining s now in
  let shown := formatTimeRemaining s now in
  (shown = lit "Expired" ↔ R = 0)
  ∧ (0 < R →
     ∃ a b,
       0 ≤ a ∧
       ((R < 60000 ∧ shown = decimal a ++ lit "s"
         ∧ b = 0 ∧ a * 1000 ≤ R < (a + 1) * 1000)
        ∨ (60000 ≤ R < 3600000
           ∧ shown = decimal a ++ lit "m " ++ decimal b ++ lit "s"
           ∧ 0 ≤ b < 60
           ∧ (a * 60 + b) * 1000 ≤ R < (a * 60 + b + 1) * 1000)
        ∨ (3600000 ≤ R < 86400000
           ∧ shown = decimal a ++ lit "h " ++ decimal b ++ lit "m"
           ∧ 0 ≤ b < 60
           ∧ (a * 60 + b) * 60000 ≤ R < (a * 60 + b + 1) * 60000)
        ∨ (86400000 ≤ R
           ∧ shown = decimal a ++ lit "d " ++ decimal b ++ lit "h"
           ∧ 0 ≤ b < 24
           ∧ (a * 24 + b) * 3600000 ≤ R < (a * 24 + b + 1) * 3600000))).
Proof.
  intros R shown.
  pose proof (getTimeRemaining_nonneg s now) as HR. fold R in HR.
  assert (Hcases :
    0 < R →
    ∃ a b,
       0 ≤ a ∧
       ((R < 60000 ∧ shown = decimal a ++ lit "s"
         ∧ b = 0 ∧ a * 1000 ≤ R < (a + 1) * 1000)
        ∨ (60000 ≤ R < 3600000
           ∧ shown = decimal a ++ lit "m " ++ decimal b ++ lit "s"
           ∧ 0 ≤ b < 60
           ∧ (a * 60 + b) * 1000 ≤ R < (a * 60 + b + 1) * 1000)
        ∨ (3600000 ≤ R < 86400000
           ∧ shown = decimal a ++ lit "h " ++ decimal b ++ lit "m"
           ∧ 0 ≤ b < 60
           ∧ (a * 60 + b) * 60000 ≤ R < (a * 60 + b + 1) * 60000)
        ∨ (86400000 ≤ R
           ∧ shown = decimal a ++ lit "d " ++ decimal b ++ lit "h"
           ∧ 0 ≤ b < 24
           ∧ (a * 24 + b) * 3600000 ≤ R < (a * 24 + b + 1) * 3600000))).
  { intros Hpos. unfold shown, formatTimeRemaining. fold R.
    replace (R =? 0) with false by (symmetry; apply Z.eqb_neq; lia).
    cbv zeta.
    clearbody R. clear shown.
    destruct (Z.ltb_spec 0 (R / 1000 / 60 / 60 / 24)) as [Hd|Hd].
    { exists (R / 1000 / 60 / 60 / 24), ((R / 1000 / 60 / 60) mod 24).
      split; [Z.div_mod_to_equations; lia|]. right. right. right.
      split; [Z.div_mod_to_equations; lia|]. split; [done|].
      Z.div_mod_to_equations; lia. }
    destruct (Z.ltb_spec 0 (R / 1000 / 60 / 60)) as [Hh|Hh].
    { exists (R / 1000 / 60 / 60), ((R / 1000 / 60) mod 60).
      split; [Z.div_mod_to_equations; lia|]. right. right. left.
      split; [Z.div_mod_to_equations; lia|]. split; [done|].
      Z.div_mod_to_equations; lia. }
    destruct (Z.ltb_spec 0 (R / 1000 / 60)) as [Hm|Hm].
    { exists (R / 1000 / 60), ((R / 1000) mod 60).
      split; [Z.div_mod_to_equations; lia|]. right. left.
      split; [Z.div_mod_to_equations; lia|]. split; [done|].
      Z.div_mod_to_equations; lia. }
    exists (R / 1000), 0. split; [Z.div_mod_to_equations; lia|]. left.
    split; [Z.div_mod_to_equations; lia|]. split; [done|].
    Z.div_mod_to_equations; lia. }
  split; [|exact Hcases].
  split.
  - intros E. destruct (decide (R = 0)) as [|Hne]; [done|]. exfalso.
    destruct (Hcases ltac:(lia)) as (a & b & _ & Hc).
    rewrite E in Hc.
    change (lit "Expired") with (lit "Expire" ++ [100%N]) in Hc.
    change (lit "s") with [115%N] in Hc.
    change (lit "m") with [109%N] in Hc.
    change (lit "h") with [104%N] in Hc.
    destruct Hc as [(_ & Hc & _)|[(_ & Hc & _)|[(_ & Hc & _)|(_ & Hc & _)]]];
      rewrite ?app_assoc in Hc;
      by apply ends_differently in Hc.
  - intros E. unfold shown, formatTimeRemaining. fold R. by rewrite E.
Qed.

End Display.

Lemma formatTimeRemaining_rounds_down_witness :
  let H := Reference.runtime in
  ReservationDisplay.formatTimeRemaining (lit "2025-01-01T00:00:00.000Z")
    (1735689600000 - 93784001) = lit "1d 2h"
  ∧ ReservationDisplay.formatTimeRemaining (lit "2025-01-01T00:00:00.000Z")
      (1735689600000 - 999) ≠ lit "Expired".
Proof.
  intros H.
  destruct (formatTimeRemaining_rounds_down (H := H)
              (lit "2025-01-01T00:00:00.000Z") (1735689600000 - 999))
    as [[A _] _].
  split; [vm_compute; reflexivity|].
  intros E. apply A in E. vm_compute in E. discriminate E.
Defined.

(** ** Expiry over time *)

Section ExpiryOverTime.
Context `{Runtime}.
Import Reservations UseChat.

(** X2. Expiry is irreversible for a fixed [expiresAt], whatever the
    string is: once [isReservationExpired] holds it holds at every
    later time, and so does [isChatExpired]; a reservation that is not
    active at some time is not active at any later time. *)
Theorem expiry_is_irreversible (s : jsstring) (now later : Z) :
  now ≤ later →
  (isReservationExpired s now = true → isReservationExpired s later = true)
  ∧ (isChatExpired s now = true → isChatExpired s later = true)
  ∧ (∀ r, Reservation.expiresAt r = s →
       isReservationActive (Some r) now = false →
       isReservationActive (Some r) later = false).
Proof.
  intros Hle.
  assert (A : isReservationExpired s now = true →
              isReservationExpired s later = true).
  { unfold isReservationExpired. destruct (negb _); [done|].
    destruct (Date_getTime s) as [t|]; [|done].
    intros ?%Z.ltb_lt. apply Z.ltb_lt. lia. }
  split; [exact A|]. split.
  - unfold isChatExpired. destruct (negb _); [done|].
    destruct (Date_getTime s) as [t|]; [|done].
    intros ?%Z.ltb_lt. apply Z.ltb_lt. lia.
  - intros r <-. unfold isReservationActive.
    destruct (_ || _); [done|]. simpl.
    destruct (bool_decide _); [|done]. simpl.
    destruct (isReservationExpired (Reservation.expiresAt r) now) eqn:E;
      [|done].
    by rewrite A.
Qed.

(** X3. [getTimeRemaining] is never negative and never grows as time
    passes; it is 0 whenever [isReservationExpired] holds (missing and
    unparsable dates included), and a reservation that
    [isReservationActive] accepts has time remaining or is at its
    expiry instant: its parsed expiry is not before the current time. *)
Theorem time_remaining_consistent (s : jsstring) (now : Z) :
  0 ≤ getTimeRemaining s now
  ∧ (∀ later, now ≤ later → getTimeRemaining s later ≤ getTimeRemaining s now)
  ∧ (isReservationExpired s now = true → getTimeRemaining s now = 0)
  ∧ (∀ r, Reservation.expiresAt r = s →
       isReservationActive (Some r) now = true →
       ∃ t, Date_getTime s = Some t ∧ now ≤ t
            ∧ getTimeRemaining s now = t - now).
Proof.
  split; [apply getTimeRemaining_nonneg|]. split; [|split].
  - intros later Hle. unfold getTimeRemaining. destruct (negb _); [done|].
    destruct (Date_getTime s) as [t|]; [|done]. simpl.
    destruct (Z.ltb_spec 0 (t - later)), (Z.ltb_spec 0 (t - now)); lia.
  - unfold isReservationExpired, getTimeRemaining. destruct (negb _); [done|].
    destruct (Date_getTime s) as [t|]; [|done]. simpl.
    intros ?%Z.ltb_lt. destruct (Z.ltb_spec 0 (t - now)); lia.
  - intros r <-. unfold isReservationActive.
    destruct (_ || _); [done|]. simpl.
    intros [_ Hexp%negb_true_iff]%andb_true_iff.
    unfold isReservationExpired, getTimeRemaining in *.
    destruct (negb _); [done|].
    destruct (Date_getTime (Reservation.expiresAt r)) as [t|]; [|done].
    apply Z.ltb_ge in Hexp. exists t. split; [done|]. split; [done|].
    simpl. destruct (Z.ltb_spec 0 (t - now)); lia.
Qed.

End ExpiryOverTime.

Lemma expiry_is_irreversible_witness :
  let H := Reference.runtime in
  Reservations.isReservationExpired (lit "2025-01-01T00:00:00.000Z")
    1735689600500 = true
  ∧ UseChat.isChatExpired (lit "2025-01-01T00:00:00.000Z") 1735689600500 = true.
Proof.
  intros H.
  destruct (expiry_is_irreversible (H := H) (lit "2025-01-01T00:00:00.000Z")
              1735689600001 1735689600500 ltac:(lia)) as (A & B & _).
  split; [apply A|apply B]; vm_compute; reflexivity.
Defined.

Lemma time_remaining_consistent_witness :
  let H := Reference.runtime in
  Reservations.getTimeRemaining (lit "2025-01-01T00:00:00.000Z") 1735689600001
  = 0
  ∧ Reservations.getTimeRemaining (lit "2025-01-01T00:00:00.000Z") 1735689000000
    ≤ Reservations.getTimeRemaining (lit "2025-01-01T00:00:00.000Z")
        1735688000000.
Proof.
  intros H.
  destruct (time_remaining_consistent (H := H)
              (lit "2025-01-01T00:00:00.000Z") 1735689600001) as (_ & _ & A & _).
  destruct (time_remaining_consistent (H := H)
              (lit "2025-01-01T00:00:00.000Z") 1735688000000) as (_ & B & _).
  split; [apply A; vm_compute; reflexivity | apply B; lia].
Defined.

(** ** Fetching and cancelling one reservation *)

Section OneReservation.
Context `{Runtime}.
Import Reservations ReservationQueries.

(** X4. [useCancelReservation] sends a request exactly when the id is a
    string of 24 hexadecimal characters, and then it is the DELETE of
    [/reservations/] followed by that id unchanged; for any other id it
    throws "Invalid reservation ID" and sends nothing. In particular
    the path of a request that is sent has the 14-character prefix and
    then hexadecimal characters only. *)
Theorem cancel_reservation_validates_locally (reservationId : jsstring) :
  let is_object_id :=
    length reservationId = 24%nat
    ∧ Forall (λ c, c ∈ lit "0123456789abcdefABCDEF") reservationId in
  (is_object_id →
     useCancelReservation_mutationFn reservationId
     = Ok (DELETE (lit "/reservations/" ++ reservationId)))
  ∧ (¬ is_object_id →
     useCancelReservation_mutationFn reservationId
     = Throw (Api.PlainError (lit "Invalid reservation ID")))
  ∧ (∀ path, useCancelReservation_mutationFn reservationId = Ok (DELETE path) →
       length path = 38%nat
       ∧ take 14 path = lit "/reservations/"
       ∧ Forall (λ c, c ∈ lit "0123456789abcdefABCDEF") (drop 14 path)).
Proof.
  intros is_object_id.
  pose proof (isValidObjectId_spec reservationId) as Hid.
  fold is_object_id in Hid.
  assert (Hgood : is_object_id →
            useCancelReservation_mutationFn reservationId
            = Ok (DELETE (lit "/reservations/" ++ reservationId))).
  { intros Hg. unfold useCancelReservation_mutationFn.
    assert (Hv : isValidObjectId reservationId = true) by (by apply Hid).
    rewrite Hv. destruct Hg as [Hl _]. by destruct reservationId. }
  assert (Hbad : ¬ is_object_id →
            useCancelReservation_mutationFn reservationId
            = Throw (Api.PlainError (lit "Invalid reservation ID"))).
  { intros Hb. unfold useCancelReservation_mutationFn.
    destruct (isValidObjectId reservationId) eqn:E.
    - by destruct Hb; apply Hid.
    - by rewrite orb_true_r. }
  split; [done|]. split; [done|].
  intros path Hp.
  destruct (isValidObjectId reservationId) eqn:E.
  - assert (Hg : is_object_id) by (by apply Hid).
    rewrite (Hgood Hg) in Hp. injection Hp as <-.
    destruct Hg as [Hl Hhex].
    split; [|split].
    + simpl. by rewrite Hl.
    + reflexivity.
    + exact Hhex.
  - rewrite Hbad in Hp; [done|]. intros Hg. apply Hid in Hg. congruence.
Qed.

(** X5. Whatever [api.get] yields, the query function of
    [useReservation] returns [null] or a value that passes
    [isValidReservation], and [null] when the fetch fails; the query
    function of [useProductReservation] returns the response as it
    came, unvalidated, and [null] when the fetch fails. Both queries are
    enabled only for an id of 24 hexadecimal characters. *)
Theorem single_reservation_queries (fetched : Result Api.Error value)
    (id : option jsstring) :
  (useReservation_queryFn fetched = VNull
   ∨ isValidReservation (useReservation_queryFn fetched) = true)
  ∧ (∀ response, fetched = Ok response →
       isValidReservation response = true →
       useReservation_queryFn fetched = response)
  ∧ (∀ response, fetched = Ok response →
       useProductReservation_queryFn fetched = response)
  ∧ (∀ e, fetched = Throw e →
       useReservation_queryFn fetched = VNull
       ∧ useProductReservation_queryFn fetched = VNull)
  ∧ (enabled id = true →
     ∃ s, id = Some s ∧ length s = 24%nat
          ∧ Forall (λ c, c ∈ lit "0123456789abcdefABCDEF") s).
Proof.
  split; [|split; [|split; [|split]]].
  - unfold useReservation_queryFn, try_catch, bind.
    destruct fetched as [response|e]; [|by left].
    destruct (isValidReservation response) eqn:E; [by right|by left].
  - intros response -> Hv.
    unfold useReservation_queryFn, try_catch, bind. by rewrite Hv.
  - by intros response ->.
  - by intros e ->.
  - destruct id as [s|]; [|done]. simpl.
    intros [_ Hv]%andb_true_iff. apply isValidObjectId_spec in Hv.
    by exists s.
Qed.

End OneReservation.

Lemma cancel_reservation_validates_locally_witness :
  ReservationQueries.useCancelReservation_mutationFn
    (lit "65f0c0ffee0123456789abcd")
  = Ok (ReservationQueries.DELETE (lit "/reservations/65f0c0ffee0123456789abcd"))
  ∧ ReservationQueries.useCancelReservation_mutationFn
      (lit "65f0c0ffee0123456789abcd/../admin")
    = Throw (Api.PlainError (lit "Invalid reservation ID")).
Proof.
  destruct (cancel_reservation_validates_locally
              (lit "65f0c0ffee0123456789abcd")) as (A & _).
  destruct (cancel_reservation_validates_locally
              (lit "65f0c0ffee0123456789abcd/../admin")) as (_ & B & _).
  split.
  - apply A. split; [reflexivity|].
    apply (bool_decide_unpack _). vm_compute. exact I.
  - apply B. intros [Hl _]. discriminate Hl.
Defined.

Lemma single_reservation_queries_witness :
  let H := Reference.runtime in
  ReservationQueries.useReservation_queryFn
    (Ok (sample_reservation_json "tomorrow")) = VNull
  ∧ ReservationQueries.useReservation_queryFn
      (Ok (sample_reservation_json "2025-01-01T00:00:00.000Z"))
    = sample_reservation_json "2025-01-01T00:00:00.000Z".
Proof.
  intros H.
  destruct (single_reservation_queries (H := H)
              (Ok (sample_reservation_json "2025-01-01T00:00:00.000Z")) None)
    as (_ & A & _).
  split; [vm_compute; reflexivity|].
  apply A; [reflexivity|vm_compute; reflexivity].
Defined.

(** ** The sections of the reservations page *)

Section Sections.
Context `{Runtime}.
Import Reservations MyReservations.

Lemma active_upper (r : Reservation.t) (now : Z) :
  isReservationActive (Some r) now = true →
  toUpperCase (Reservation.status r) = lit "ACTIVE".
Proof.
  unfold isReservationActive. destruct (_ || _); [done|]. simpl.
  by intros [?%bool_decide_eq_true _]%andb_true_iff.
Qed.

Lemma sections_exclusive (r : Reservation.t) (now : Z) :
  let active := isReservationActive (Some r) now in
  let expired :=
    bool_decide (toUpperCase (Reservation.status r) = lit "EXPIRED") in
  let cancelled :=
    bool_decide (toUpperCase (Reservation.status r) = lit "CANCELLED") in
  (Nat.b2n active + Nat.b2n expired + Nat.b2n cancelled ≤ 1)%nat.
Proof.
  intros active expired cancelled. subst expired cancelled.
  destruct active eqn:A; subst active.
  - apply active_upper in A. rewrite A.
    rewrite !bool_decide_eq_false_2 by discriminate. simpl. lia.
  - destruct (decide (toUpperCase (Reservation.status r) = lit "EXPIRED"))
      as [E|E].
    + rewrite E, bool_decide_eq_true_2 by done.
      rewrite bool_decide_eq_false_2 by discriminate. simpl. lia.
    + rewrite (bool_decide_eq_false_2 _ E).
      destruct (bool_decide _); simpl; lia.
Qed.

(** X6. On the reservations page no reservation is listed in two of the
    three sections (active, expired, cancelled), so the three counters
    add up to at most the number of reservations. They can add up to
    less: a reservation whose status still upper-cases to ACTIVE but
    whose valid expiry is strictly in the past is listed in none of
    them. *)
Theorem reservation_sections_disjoint (reservations : list Reservation.t)
    (now : Z) :
  (∀ r, ¬ (r ∈ activeReservations reservations now
           ∧ r ∈ expiredReservations reservations)
        ∧ ¬ (r ∈ activeReservations reservations now
             ∧ r ∈ cancelledReservations reservations)
        ∧ ¬ (r ∈ expiredReservations reservations
             ∧ r ∈ cancelledReservations reservations))
  ∧ ((length (activeReservations reservations now)
      + length (expiredReservations reservations)
      + length (cancelledReservations reservations)
      ≤ length reservations)%nat)
  ∧ (∀ r t,
       toUpperCase (Reservation.status r) = lit "ACTIVE" →
       Reservation.expiresAt r ≠ [] →
       Date_getTime (Reservation.expiresAt r) = Some t →
       t < now →
       (r ∉ activeReservations reservations now)
       ∧ (r ∉ expiredReservations reservations)
       ∧ (r ∉ cancelledReservations reservations)).
Proof.
  unfold activeReservations, expiredReservations, cancelledReservations.
  split; [|split].
  - intros r. pose proof (sections_exclusive r now) as Hone.
    cbv zeta in Hone.
    repeat split; intros [H1 H2];
      apply list_elem_of_In, filter_In in H1 as [_ H1];
      apply list_elem_of_In, filter_In in H2 as [_ H2];
      rewrite H1, H2 in Hone; cbn [Nat.b2n] in Hone; lia.
  - induction reservations as [|r rest IH]; [done|].
    pose proof (sections_exclusive r now) as Hone. cbv zeta in Hone.
    cbn [List.filter].
    destruct (isReservationActive (Some r) now),
      (bool_decide (toUpperCase (Reservation.status r) = lit "EXPIRED")),
      (bool_decide (toUpperCase (Reservation.status r) = lit "CANCELLED"));
      cbn [Nat.b2n length] in *; lia.
  - intros r t Hup Hne Hp Hlt.
    assert (Hexp : isReservationExpired (Reservation.expiresAt r) now = true).
    { rewrite (isReservationExpired_valid _ t) by done. by apply Z.ltb_lt. }
    repeat split; intros [_ Hin]%list_elem_of_In%filter_In.
    + unfold isReservationActive in Hin.
      destruct (_ || _); [done|]. rewrite Hexp in Hin.
      by rewrite andb_false_r in Hin.
    + rewrite Hup in Hin. by apply bool_decide_eq_true in Hin.
    + rewrite Hup in Hin. by apply bool_decide_eq_true in Hin.
Qed.

End Sections.

Lemma reservation_sections_disjoint_witness :
  let H := Reference.runtime in
  let now := 1735689600001 in
  MyReservations.activeReservations [sample_reservation] now = []
  ∧ MyReservations.expiredReservations [sample_reservation] = []
  ∧ MyReservations.cancelledReservations [sample_reservation] = [].
Proof.
  intros H now.
  destruct (reservation_sections_disjoint (H := H) [sample_reservation] now)
    as (_ & _ & A).
  destruct (A sample_reservation 1735689600000) as (A1 & A2 & A3);
    [reflexivity | discriminate | reflexivity | reflexivity |].
  repeat split; vm_compute; reflexivity.
Defined.

(** ** The chat list and the banners of the chat window *)

Section ChatPages.
Context `{Runtime}.
Import UseChat.

Lemma isChatExpired_undated (s : jsstring) (now : Z) :
  s = [] ∨ Date_getTime s = None → isChatExpired s now = false.
Proof.
  unfold isChatExpired. intros [-> | ->]; [done|].
  by destruct (truthy_string s).
Qed.

Lemma getChatExpiryDays_undated (s : jsstring) (now : Z) :
  s = [] ∨ Date_getTime s = None → getChatExpiryDays s now = 0.
Proof.
  unfold getChatExpiryDays. intros [-> | ->]; [done|].
  by destruct (truthy_string s).
Qed.

Lemma filter_partition {A} (f : A → bool) (l : list A) :
  List.filter f l ++ List.filter (λ x, negb (f x)) l ≡ₚ l.
Proof.
  induction l as [|x l IH]; [done|]. simpl.
  destruct (f x); simpl.
  - by rewrite IH.
  - rewrite <- Permutation_middle. by rewrite IH.
Qed.

Lemma isChatExpired_later (s : jsstring) (a b : Z) :
  a ≤ b → isChatExpired s a = true → isChatExpired s b = true.
Proof.
  intros Hab. unfold isChatExpired. destruct (negb _); [done|].
  destruct (Date_getTime s) as [t|]; [|done].
  intros ?%Z.ltb_lt. apply Z.ltb_lt. lia.
Qed.

Lemma filter_reading_elem (keep : Chat.t → Z → bool) (chats : list Chat.t) :
  ∀ (reads : list Z) (chat : Chat.t),
    chat ∈ ChatListReads.filter_reading keep chats reads
    ↔ ∃ i now, chats !! i = Some chat ∧ reads !! i = Some now
               ∧ keep chat now = true.
Proof.
  induction chats as [|c cs IH]; intros reads chat.
  - cbn. split; [by intros ?%elem_of_nil|]. by intros (i & now & ? & _).
  - destruct reads as [|a reads].
    + cbn. split; [by intros ?%elem_of_nil|]. by intros (i & now & _ & ? & _).
    + cbn [ChatListReads.filter_reading]. rewrite elem_of_app, IH. split.
      * intros [Hin|(i & now & Hc & Hr & Hk)].
        -- destruct (keep c a) eqn:Hk; [|by apply elem_of_nil in Hin].
           apply list_elem_of_singleton in Hin as ->. by exists 0%nat, a.
        -- by exists (S i), now.
      * intros ([|i] & now & Hc & Hr & Hk).
        -- cbn in Hc, Hr. injection Hc as ->. injection Hr as ->.
           left. rewrite Hk. by apply list_elem_of_singleton.
        -- right. by exists i, now.
Qed.

Lemma filter_reading_frozen (keep : Chat.t → Z → bool) (chats : list Chat.t)
    (now : Z) :
  ChatListReads.filter_reading keep chats (replicate (length chats) now)
  = List.filter (λ chat, keep chat now) chats.
Proof.
  induction chats as [|c cs IH]; [done|].
  cbn [length replicate ChatListReads.filter_reading List.filter].
  rewrite IH. by destruct (keep c now).
Qed.

Lemma filter_reading_lengths (chats : list Chat.t) :
  ∀ reads1 reads2 : list Z,
    length reads1 = length chats → length reads2 = length chats →
    (∀ a b, a ∈ reads1 → b ∈ reads2 → a ≤ b) →
    (length chats
     ≤ length (ChatListReads.activeChats chats reads1)
       + length (ChatListReads.expiredChats chats reads2))%nat.
Proof.
  unfold ChatListReads.activeChats, ChatListReads.expiredChats.
  induction chats as [|c cs IH]; intros reads1 reads2 H1 H2 Hle; [done|].
  destruct reads1 as [|a r1]; [done|]. destruct reads2 as [|b r2]; [done|].
  cbn [ChatListReads.filter_reading]. rewrite !length_app.
  assert (IH' := IH r1 r2 ltac:(by injection H1) ltac:(by injection H2)
                   ltac:(intros x y ? ?; apply Hle; by right)).
  assert (Hab : a ≤ b) by (apply Hle; by left).
  destruct (isChatExpired (Chat.expiresAt c) a) eqn:Ea; cbn [negb].
  - rewrite (isChatExpired_later _ a b Hab Ea). cbn [length] in *. lia.
  - cbn [length] in *. lia.
Qed.

(** X7. The chat list under a running clock, where each of the two
    filters reads the clock once for each chat and the first filter is
    done before the second starts: every chat fetched is listed at
    least once, as active or as expired, and a chat whose [expiresAt]
    is empty or unparsable is always listed as active. A chat with a
    valid expiry is listed twice exactly when the expiry lies between
    its two readings (not before the first, strictly before the
    second). When all readings are the same instant, the two lists are
    the two filters at that instant, they share no chat, and together
    they are a rearrangement of the chats fetched. *)
Theorem chat_list_shows_every_chat (chats : list Chat.t)
    (reads1 reads2 : list Z) :
  length reads1 = length chats → length reads2 = length chats →
  (∀ a b, a ∈ reads1 → b ∈ reads2 → a ≤ b) →
  (∀ chat, chat ∈ chats →
     chat ∈ ChatListReads.activeChats chats reads1
     ∨ chat ∈ ChatListReads.expiredChats chats reads2)
  ∧ ((length chats
      ≤ length (ChatListReads.activeChats chats reads1)
        + length (ChatListReads.expiredChats chats reads2))%nat)
  ∧ (∀ chat, chat ∈ chats →
       Chat.expiresAt chat = [] ∨ Date_getTime (Chat.expiresAt chat) = None →
       chat ∈ ChatListReads.activeChats chats reads1)
  ∧ (∀ i chat a b t,
       chats !! i = Some chat → reads1 !! i = Some a → reads2 !! i = Some b →
       Chat.expiresAt chat ≠ [] →
       Date_getTime (Chat.expiresAt chat) = Some t →
       (negb (isChatExpired (Chat.expiresAt chat) a) = true
        ∧ isChatExpired (Chat.expiresAt chat) b = true
        ↔ a ≤ t ∧ t < b)
       ∧ (negb (isChatExpired (Chat.expiresAt chat) a) = true
          ∧ isChatExpired (Chat.expiresAt chat) b = true →
          chat ∈ ChatListReads.activeChats chats reads1
          ∧ chat ∈ ChatListReads.expiredChats chats reads2))
  ∧ (∀ now,
       reads1 = replicate (length chats) now →
       reads2 = replicate (length chats) now →
       ChatListReads.activeChats chats reads1 = ChatList.activeChats chats now
       ∧ ChatListReads.expiredChats chats reads2
         = ChatList.expiredChats chats now
       ∧ ChatListReads.activeChats chats reads1
         ++ ChatListReads.expiredChats chats reads2 ≡ₚ chats
       ∧ ∀ chat, ¬ (chat ∈ ChatListReads.activeChats chats reads1
                    ∧ chat ∈ ChatListReads.expiredChats chats reads2)).
Proof.
  intros H1 H2 Hle.
  split; [|split; [|split; [|split]]].
  - intros chat [i Hi]%list_elem_of_lookup.
    destruct (lookup_lt_is_Some_2 reads1 i) as [a Ha].
    { rewrite H1. by eapply lookup_lt_Some. }
    destruct (lookup_lt_is_Some_2 reads2 i) as [b Hb].
    { rewrite H2. by eapply lookup_lt_Some. }
    assert (Hab : a ≤ b).
    { apply Hle; apply list_elem_of_lookup; by eexists. }
    unfold ChatListReads.activeChats, ChatListReads.expiredChats.
    rewrite !filter_reading_elem.
    destruct (isChatExpired (Chat.expiresAt chat) a) eqn:Ea.
    + right. exists i, b. split; [done|]. split; [done|].
      by apply (isChatExpired_later _ a b).
    + left. exists i, a. split; [done|]. split; [done|]. by rewrite Ea.
  - by apply filter_reading_lengths.
  - intros chat [i Hi]%list_elem_of_lookup Hbad.
    destruct (lookup_lt_is_Some_2 reads1 i) as [a Ha].
    { rewrite H1. by eapply lookup_lt_Some. }
    unfold ChatListReads.activeChats. rewrite filter_reading_elem.
    exists i, a. split; [done|]. split; [done|].
    by rewrite (isChatExpired_undated _ a Hbad).
  - intros i chat a b t Hi Ha Hb Hne Hp. split.
    + rewrite !(isChatExpired_valid _ t) by done.
      rewrite negb_true_iff, Z.ltb_ge, Z.ltb_lt. tauto.
    + intros [Ea Eb].
      unfold ChatListReads.activeChats, ChatListReads.expiredChats.
      rewrite !filter_reading_elem. split; [by exists i, a|by exists i, b].
  - intros now -> ->.
    unfold ChatListReads.activeChats, ChatListReads.expiredChats,
      ChatList.activeChats, ChatList.expiredChats.
    rewrite !filter_reading_frozen.
    split; [done|]. split; [done|]. split.
    + rewrite Permutation_app_comm.
      apply (filter_partition
               (λ chat, isChatExpired (Chat.expiresAt chat) now)).
    + intros chat [[_ E1]%list_elem_of_In%filter_In
                   [_ E2]%list_elem_of_In%filter_In].
      by rewrite E2 in E1.
Qed.

(** X8. The banners of the chat window: the expiry warning and the
    expired notice are never shown together, and the input is shown
    exactly when the expired notice is not. For a valid expiry the
    warning is shown exactly while the chat expires within the next 48
    hours (and has not yet), the notice exactly when the expiry is
    strictly in the past; for an empty or unparsable [expiresAt]
    neither is ever shown and the input stays. *)
Theorem chat_window_banners (chat : Chat.t) (now : Z) :
  let v := ChatWindow.render chat now in
  (ChatWindow.showExpiryWarning v && ChatWindow.showExpiredAlert v = false)
  ∧ ChatWindow.showInput v = negb (ChatWindow.showExpiredAlert v)
  ∧ (∀ t, Chat.expiresAt chat ≠ [] →
       Date_getTime (Chat.expiresAt chat) = Some t →
       (ChatWindow.showExpiryWarning v = true ↔ 0 < t - now ≤ 172800000)
       ∧ (ChatWindow.showExpiredAlert v = true ↔ t < now))
  ∧ (Chat.expiresAt chat = [] ∨ Date_getTime (Chat.expiresAt chat) = None →
     ChatWindow.showExpiryWarning v = false
     ∧ ChatWindow.showExpiredAlert v = false
     ∧ ChatWindow.showInput v = true).
Proof.
  intros v. subst v. unfold ChatWindow.render.
  cbn [ChatWindow.showExpiryWarning ChatWindow.showExpiredAlert
       ChatWindow.showInput].
  split; [|split; [done|split]].
  - destruct (isChatExpired _ _); cbn [negb]; by rewrite ?andb_false_r.
  - intros t Hne Hp.
    rewrite (isChatExpired_valid _ t) by done.
    assert (E : getChatExpiryDays (Chat.expiresAt chat) now
                = Math_ceil_div (t - now) 86400000).
    { unfold getChatExpiryDays.
      by rewrite (truthy_string_nonempty _ Hne), Hp. }
    rewrite E.
    pose proof (Math_ceil_div_spec (t - now) 86400000 ltac:(lia)) as Hc.
    split; [|apply Z.ltb_lt].
    rewrite !andb_true_iff, negb_true_iff, Z.leb_le, Z.ltb_lt, Z.ltb_ge.
    lia.
  - intros Hbad.
    rewrite (isChatExpired_undated _ now Hbad),
      (getChatExpiryDays_undated _ now Hbad). done.
Qed.

(** X9. A row of the active list: its days-left number is never
    negative. With a valid expiry the row is marked as expiring soon
    exactly when at most 48 hours remain; a chat whose [expiresAt] is
    empty or unparsable is marked as expiring soon with 0 days left. *)
Theorem active_chat_annotation (chats : list Chat.t) (chat : Chat.t)
    (now : Z) :
  chat ∈ ChatList.activeChats chats now →
  0 ≤ (ChatList.annotate chat now).1
  ∧ (∀ t, Chat.expiresAt chat ≠ [] →
       Date_getTime (Chat.expiresAt chat) = Some t →
       now ≤ t
       ∧ ((ChatList.annotate chat now).2 = true ↔ t - now ≤ 172800000))
  ∧ (Chat.expiresAt chat = [] ∨ Date_getTime (Chat.expiresAt chat) = None →
     ChatList.annotate chat now = (0, true)).
Proof.
  unfold ChatList.activeChats, ChatList.annotate.
  intros [_ Hact%negb_true_iff]%list_elem_of_In%filter_In.
  cbn [fst snd].
  assert (Hvalid : ∀ t, Chat.expiresAt chat ≠ [] →
            Date_getTime (Chat.expiresAt chat) = Some t →
            now ≤ t
            ∧ getChatExpiryDays (Chat.expiresAt chat) now
              = Math_ceil_div (t - now) 86400000).
  { intros t Hne Hp. rewrite (isChatExpired_valid _ t) in Hact by done.
    apply Z.ltb_ge in Hact. split; [done|].
    unfold getChatExpiryDays.
    by rewrite (truthy_string_nonempty _ Hne), Hp. }
  split; [|split].
  - destruct (decide (Chat.expiresAt chat = [])) as [He|Hne].
    { by rewrite (getChatExpiryDays_undated _ now (or_introl He)). }
    destruct (Date_getTime (Chat.expiresAt chat)) as [t|] eqn:Hp.
    + destruct (Hvalid t Hne eq_refl) as [Hle ->].
      pose proof (Math_ceil_div_spec (t - now) 86400000 ltac:(lia)). lia.
    + by rewrite (getChatExpiryDays_undated _ now (or_intror Hp)).
  - intros t Hne Hp. destruct (Hvalid t Hne Hp) as [Hle ->].
    split; [done|].
    pose proof (Math_ceil_div_spec (t - now) 86400000 ltac:(lia)).
    rewrite Z.leb_le. lia.
  - intros Hbad. by rewrite (getChatExpiryDays_undated _ now Hbad).
Qed.

End ChatPages.

Lemma chat_list_shows_every_chat_witness :
  let H := Reference.runtime in
  let undated :=
    {| Chat._id := lit "65f0c0ffee0123456789ab09";
       Chat.buyerId := lit "65f0c0ffee0123456789ab02";
       Chat.sellerId := lit "65f0c0ffee0123456789ab03";
       Chat.productId := None;
       Chat.expiresAt := [];
       Chat.unreadCount := None;
       Chat.createdAt := lit "2025-01-01T00:00:00.000Z" |} in
  let chats := [sample_chat; undated] in
  let reads1 := [1736294400000; 1736294400000] in
  let reads2 := [1736294400001; 1736294400001] in
  In undated (ChatListReads.activeChats chats reads1)
  ∧ In sample_chat (ChatListReads.activeChats chats reads1)
  ∧ In sample_chat (ChatListReads.expiredChats chats reads2).
Proof.
  intros H undated chats reads1 reads2.
  destruct (chat_list_shows_every_chat (H := H) chats reads1 reads2)
    as (_ & _ & A & B & _).
  - reflexivity.
  - reflexivity.
  - intros a b Ha Hb.
    apply list_elem_of_In in Ha. apply list_elem_of_In in Hb.
    simpl in Ha, Hb. lia.
  - destruct (B 0%nat sample_chat 1736294400000 1736294400001 1736294400000)
      as [B1 B2];
      [reflexivity | reflexivity | reflexivity | discriminate
      | vm_compute; reflexivity |].
    destruct B2 as [B3 B4]; [apply B1; lia|].
    split; [|split].
    + apply list_elem_of_In, A; [|by left].
      apply list_elem_of_In. right. left. reflexivity.
    + by apply list_elem_of_In.
    + by apply list_elem_of_In.
Defined.

Lemma chat_window_banners_witness :
  let H := Reference.runtime in
  ChatWindow.showExpiryWarning (ChatWindow.render sample_chat 1736200000000)
  = true
  ∧ ChatWindow.showExpiredAlert (ChatWindow.render sample_chat 1736294400001)
    = true.
Proof.
  intros H.
  destruct (chat_window_banners (H := H) sample_chat 1736200000000)
    as (_ & _ & A & _).
  destruct (chat_window_banners (H := H) sample_chat 1736294400001)
    as (_ & _ & B & _).
  destruct (A 1736294400000) as [A1 _]; [discriminate|vm_compute; reflexivity|].
  destruct (B 1736294400000) as [_ B1]; [discriminate|vm_compute; reflexivity|].
  split; [apply A1; lia|apply B1; lia].
Defined.

Lemma active_chat_annotation_witness :
  let H := Reference.runtime in
  (ChatList.annotate sample_chat 1736200000000).2 = true
  ∧ 0 ≤ (ChatList.annotate sample_chat 1736200000000).1.
Proof.
  intros H.
  destruct (active_chat_annotation (H := H) [sample_chat] sample_chat
              1736200000000) as (A & B & _).
  - apply list_elem_of_In. vm_compute. left. reflexivity.
  - destruct (B 1736294400000) as [_ B1];
      [discriminate | vm_compute; reflexivity |].
    split; [apply B1; lia | exact A].
Defined.

(** ** What the chat socket hook emits *)

Section Emitters.
Import UseChat ChatSocket.

Lemma guarded_emit (h : Hook) (e : Emit) (body : jsstring → list Emit) :
  (∀ id e, e ∈ body id → chat_of e = id) →
  e ∈ match chatId h with
      | Some id =>
          if negb (socket h) || negb (truthy_string id)
             || negb (isConnected h)
          then []
          else body id
      | None => []
      end →
  socket h = true ∧ isConnected h = true
  ∧ ∃ id, chatId h = Some id ∧ id ≠ [] ∧ chat_of e = id.
Proof.
  intros Hbody. destruct (chatId h) as [id|]; [|by intros ?%elem_of_nil].
  destruct (socket h), (truthy_string id) eqn:Hid, (isConnected h);
    cbn [negb orb]; try (by intros ?%elem_of_nil).
  intros He. repeat split. exists id. split; [done|].
  split; [by destruct id|by apply Hbody].
Qed.

(** X10. Nothing is emitted on the socket unless there is a socket, it
    is connected and the hook has a non-empty chat id, and every event
    emitted ([send_message], [typing], [stop_typing], [mark_read])
    names that chat. For one state of the hook, [sendTyping] and
    [stopTyping] never both emit. *)
Theorem socket_emits_only_when_connected (h : Hook) (message : jsstring) :
  (∀ e, e ∈ sendMessage h message ++ sendTyping h ++ stopTyping h
              ++ markAsRead h →
     socket h = true ∧ isConnected h = true
     ∧ ∃ id, chatId h = Some id ∧ id ≠ [] ∧ chat_of e = id)
  ∧ (sendTyping h = [] ∨ stopTyping h = []).
Proof.
  split.
  - intros e He. rewrite !elem_of_app in He.
    destruct He as [He|[He|[He|He]]].
    + apply sendMessage_inv in He as (? & ? & _ & id & ? & ? & ->).
      repeat split; [done..|]. by exists id.
    + unfold sendTyping in He.
      apply (guarded_emit h e
               (λ id, if negb (isTyping h) then [typing id] else []));
        [|done].
      intros id e'. cbv beta.
      destruct (isTyping h); cbn [negb]; [by intros ?%elem_of_nil|].
      by intros ->%list_elem_of_singleton.
    + unfold stopTyping in He.
      apply (guarded_emit h e
               (λ id, if isTyping h then [stop_typing id] else []));
        [|done].
      intros id e'. cbv beta.
      destruct (isTyping h); [|by intros ?%elem_of_nil].
      by intros ->%list_elem_of_singleton.
    + unfold markAsRead in He.
      apply (guarded_emit h e (λ id, [mark_read id])); [|done].
      intros id e'. by intros ->%list_elem_of_singleton.
  - unfold sendTyping, stopTyping. destruct (chatId h); [|by left].
    destruct (_ || _); [by left|].
    destruct (isTyping h); [by left|by right].
Qed.

End Emitters.

(** ** Presence updates *)

Section Presence.
Import ChatSocket.

(** X11. A presence update leaves an absent cache entry absent.
    Otherwise it keeps the chat and the participants' number, order,
    ids, names and avatars; it sets [isOnline] to the reported value
    for every participant with the reported id and changes no other
    participant. Reporting the same status twice changes nothing more,
    a later report for the same user overrides an earlier one, and
    reports for different users commute. *)
Theorem presence_update_touches_one_user (userId : jsstring) (b : bool)
    (old : CachedChat) :
  handleUserStatus userId b None = None
  ∧ ∃ new,
      handleUserStatus userId b (Some old) = Some new
      ∧ chat new = chat old
      ∧ Participant._id <$> participants new
        = Participant._id <$> participants old
      ∧ Participant.name <$> participants new
        = Participant.name <$> participants old
      ∧ Participant.avatar <$> participants new
        = Participant.avatar <$> participants old
      ∧ (∀ i p, participants old !! i = Some p →
           ∃ q, participants new !! i = Some q
                ∧ (Participant._id p = userId →
                   Participant.isOnline q = Some b)
                ∧ (Participant._id p ≠ userId → q = p))
      ∧ handleUserStatus userId b (Some new) = Some new
      ∧ (∀ b', handleUserStatus userId b'
                 (handleUserStatus userId b (Some old))
               = handleUserStatus userId b' (Some old))
      ∧ (∀ other b', other ≠ userId →
           handleUserStatus other b' (handleUserStatus userId b (Some old))
           = handleUserStatus userId b
               (handleUserStatus other b' (Some old))).
Proof.
  split; [done|].
  destruct old as [c ps]. eexists. split; [reflexivity|].
  cbn [chat participants handleUserStatus].
  split; [done|].
  split. { induction ps as [|p ps IH]; [done|]. cbn [map fmap list_fmap].
           f_equal; [by destruct (bool_decide _)|exact IH]. }
  split. { induction ps as [|p ps IH]; [done|]. cbn [map fmap list_fmap].
           f_equal; [by destruct (bool_decide _)|exact IH]. }
  split. { induction ps as [|p ps IH]; [done|]. cbn [map fmap list_fmap].
           f_equal; [by destruct (bool_decide _)|exact IH]. }
  split.
  { intros i p Hi. eexists. split.
    - change (map ?f ps) with (f <$> ps). rewrite list_lookup_fmap, Hi.
      reflexivity.
    - split; intros Hp.
      + by rewrite bool_decide_eq_true_2.
      + by rewrite bool_decide_eq_false_2. }
  split.
  { f_equal. f_equal. rewrite map_map. apply map_ext. intros p.
    destruct (decide (Participant._id p = userId)) as [E|E].
    - rewrite (bool_decide_eq_true_2 _ E). cbn [Participant._id].
      by rewrite (bool_decide_eq_true_2 _ E).
    - rewrite (bool_decide_eq_false_2 _ E).
      by rewrite (bool_decide_eq_false_2 _ E). }
  split.
  { intros b'. f_equal. f_equal. rewrite map_map. apply map_ext. intros p.
    destruct (decide (Participant._id p = userId)) as [E|E].
    - rewrite (bool_decide_eq_true_2 _ E). cbn [Participant._id].
      by rewrite (bool_decide_eq_true_2 _ E).
    - rewrite (bool_decide_eq_false_2 _ E).
      by rewrite (bool_decide_eq_false_2 _ E). }
  intros other b' Hne. f_equal. f_equal. rewrite !map_map.
  apply map_ext. intros p.
  destruct (decide (Participant._id p = userId)) as [E|E].
  - rewrite (bool_decide_eq_true_2 _ E). cbn [Participant._id].
    assert (E' : Participant._id p ≠ other) by congruence.
    rewrite (bool_decide_eq_false_2 _ E').
    by rewrite (bool_decide_eq_true_2 _ E).
  - rewrite (bool_decide_eq_false_2 _ E).
    destruct (decide (Participant._id p = other)) as [E'|E'].
    + rewrite (bool_decide_eq_true_2 _ E'). cbn [Participant._id].
      by rewrite (bool_decide_eq_false_2 _ E).
    + rewrite (bool_decide_eq_false_2 _ E').
      by rewrite (bool_decide_eq_false_2 _ E).
Qed.

End Presence.

(** ** The chat and message queries *)

Section ChatQueriesProps.
Import ChatQueries.

(** X12. The query functions of [useChats] and [useMessages] raise
    nothing of their own: for every response body they return a list
    (the array itself, the array under [chats] / [messages], or the
    empty list for any other shape), and they fail exactly when the
    fetch fails, with the same error. *)
Theorem chat_queries_fail_only_with_fetch (fetched : Result Api.Error value) :
  (∀ e, useChats_queryFn fetched = Throw e ↔ fetched = Throw e)
  ∧ (∀ e, useMessages_queryFn fetched = Throw e ↔ fetched = Throw e)
  ∧ (∀ response, fetched = Ok response →
       ∃ chats messages,
         useChats_queryFn fetched = Ok chats
         ∧ useMessages_queryFn fetched = Ok messages
         ∧ (∀ items, response = VArray items →
              chats = items ∧ messages = items)
         ∧ (∀ fields, response = VObject fields →
              chats = match fields !! lit "chats" with
                      | Some (VArray l) => l
                      | _ => []
                      end
              ∧ messages = match fields !! lit "messages" with
                           | Some (VArray l) => l
                           | _ => []
                           end)
         ∧ ((∀ items, response ≠ VArray items) →
            (∀ fields, response ≠ VObject fields) →
            chats = [] ∧ messages = [])).
Proof.
  destruct fetched as [response|err].
  - assert (Hc : ∃ chats, useChats_queryFn (Ok response) = Ok chats
                   ∧ (∀ items, response = VArray items → chats = items)
                   ∧ (∀ fields, response = VObject fields →
                        chats = match fields !! lit "chats" with
                                | Some (VArray l) => l
                                | _ => []
                                end)
                   ∧ ((∀ items, response ≠ VArray items) →
                      (∀ fields, response ≠ VObject fields) → chats = [])).
    { unfold useChats_queryFn, bind.
      destruct response as [| |b|x|s|items|fields]; cbn -[lit];
        try (eexists; split; [reflexivity|];
             split; [done|]; split; [done|]; done).
      - destruct b; eexists; (split; [reflexivity|]);
          (split; [done|]; split; [done|]; done).
      - destruct (negb (x =? 0)); eexists; (split; [reflexivity|]);
          (split; [done|]; split; [done|]; done).
      - destruct (truthy_string s); eexists; (split; [reflexivity|]);
          (split; [done|]; split; [done|]; done).
      - eexists. split; [reflexivity|]. split; [by intros ? [= ->]|].
        split; [done|]. intros Ha _. by destruct (Ha items).
      - destruct (fields !! lit "chats") as [v|] eqn:E.
        + rewrite bool_decide_eq_true_2 by done. cbn -[lit].
          destruct v; eexists; (split; [reflexivity|]);
            (split; [done|]);
            (split; [intros ? [= <-]; by rewrite E|]);
            intros _ Ho; by destruct (Ho fields).
        + rewrite bool_decide_eq_false_2 by (by intros [? ?]).
          eexists. split; [reflexivity|]. split; [done|].
          split; [intros ? [= <-]; by rewrite E|].
          intros _ Ho; by destruct (Ho fields). }
    assert (Hm : ∃ messages, useMessages_queryFn (Ok response) = Ok messages
                   ∧ (∀ items, response = VArray items → messages = items)
                   ∧ (∀ fields, response = VObject fields →
                        messages = match fields !! lit "messages" with
                                   | Some (VArray l) => l
                                   | _ => []
                                   end)
                   ∧ ((∀ items, response ≠ VArray items) →
                      (∀ fields, response ≠ VObject fields) → messages = [])).
    { unfold useMessages_queryFn, bind.
      destruct response as [| |b|x|s|items|fields]; cbn -[lit];
        try (eexists; split; [reflexivity|];
             split; [done|]; split; [done|]; done).
      - destruct b; eexists; (split; [reflexivity|]);
          (split; [done|]; split; [done|]; done).
      - destruct (negb (x =? 0)); eexists; (split; [reflexivity|]);
          (split; [done|]; split; [done|]; done).
      - destruct (truthy_string s); eexists; (split; [reflexivity|]);
          (split; [done|]; split; [done|]; done).
      - eexists. split; [reflexivity|]. split; [by intros ? [= ->]|].
        split; [done|]. intros Ha _. by destruct (Ha items).
      - destruct (fields !! lit "messages") as [v|] eqn:E.
        + rewrite bool_decide_eq_true_2 by done. cbn -[lit].
          destruct v; eexists; (split; [reflexivity|]);
            (split; [done|]);
            (split; [intros ? [= <-]; by rewrite E|]);
            intros _ Ho; by destruct (Ho fields).
        + rewrite bool_decide_eq_false_2 by (by intros [? ?]).
          eexists. split; [reflexivity|]. split; [done|].
          split; [intros ? [= <-]; by rewrite E|].
          intros _ Ho; by destruct (Ho fields). }
    destruct Hc as (chats & Ec & C1 & C2 & C3).
    destruct Hm as (messages & Em & M1 & M2 & M3).
    split; [intros e; rewrite Ec; split; done|].
    split; [intros e; rewrite Em; split; done|].
    intros ? [= <-]. exists chats, messages.
    split; [done|]. split; [done|].
    split; [intros items Hi; split; eauto|].
    split; [intros fields Hf; split; eauto|].
    intros Ha Ho; split; eauto.
  - unfold useChats_queryFn, useMessages_queryFn, bind.
    split; [intros e; split; by intros [= ->]|].
    split; [intros e; split; by intros [= ->]|]. done.
Qed.

End ChatQueriesProps.

Lemma socket_emits_only_when_connected_witness :
  UseChat.sendMessage sample_hook (lit "hi") ++ ChatSocket.sendTyping sample_hook
  ++ UseChat.stopTyping sample_hook ++ ChatSocket.markAsRead sample_hook
  = [UseChat.send_message (lit "65f0c0ffee0123456789ab01") (lit "hi");
     UseChat.typing (lit "65f0c0ffee0123456789ab01");
     UseChat.mark_read (lit "65f0c0ffee0123456789ab01")]
  ∧ UseChat.stopTyping sample_hook = [].
Proof.
  destruct (socket_emits_only_when_connected sample_hook (lit "hi"))
    as [_ [A|A]].
  - discriminate A.
  - split; [reflexivity|exact A].
Defined.

Lemma chat_queries_fail_only_with_fetch_witness :
  ChatQueries.useChats_queryFn (Throw Api.TypeError) = Throw Api.TypeError
  ∧ ChatQueries.useMessages_queryFn (Ok (VString (lit "<html>"))) = Ok [].
Proof.
  destruct (chat_queries_fail_only_with_fetch (Throw Api.TypeError))
    as (A & _).
  split; [by apply A|reflexivity].
Defined.

(** ** Reserving from the dialog *)

Section Reserve.
Context `{Runtime}.
Context (toLocaleString : Z → jsstring).
Import Reservations ReservationModal.

Lemma mutationFn_ok (data : CreateReservationData.t) (request : Request) :
  useCreateReservation_mutationFn data = Ok request →
  request = POST (lit "/reservations") data
  ∧ CreateReservationData.productId data ≠ []
  ∧ isValidObjectId (CreateReservationData.productId data) = true
  ∧ CreateReservationData.durationMinutes data ∈ [30; 60; 120; 1440].
Proof.
  unfold useCreateReservation_mutationFn, includes.
  destruct (truthy_string _) eqn:Ht; [|done].
  destruct (isValidObjectId _) eqn:Hv; [|done]. cbn [negb orb].
  destruct (_ =? 0); [done|]. cbn [orb].
  destruct (bool_decide _) eqn:Hd; [|done]. cbn [negb].
  intros [= <-]. split; [done|]. split.
  - intros E. by rewrite E in Ht.
  - split; [done|]. by apply bool_decide_eq_true in Hd.
Qed.

Lemma mutationFn_throws (data : CreateReservationData.t) (e : Api.Error) :
  useCreateReservation_mutationFn data = Throw e →
  (e = Api.PlainError (lit "Invalid product ID")
   ∧ (CreateReservationData.productId data = []
      ∨ isValidObjectId (CreateReservationData.productId data) = false))
  ∨ (e = Api.PlainError
           (lit "Invalid duration. Must be 30, 60, 120, or 1440 minutes")
     ∧ CreateReservationData.durationMinutes data ∉ [30; 60; 120; 1440]).
Proof.
  unfold useCreateReservation_mutationFn, includes.
  destruct (truthy_string _) eqn:Ht;
    [|intros [= <-]; left; split; [done|left];
      by destruct (CreateReservationData.productId data)].
  destruct (isValidObjectId _) eqn:Hv;
    [|intros [= <-]; left; split; [done|by right]].
  cbn [negb orb].
  destruct (Z.eqb_spec (CreateReservationData.durationMinutes data) 0)
    as [E|E].
  - intros [= <-]. right. split; [done|]. rewrite E.
    intros Hin. apply list_elem_of_In in Hin. simpl in Hin. lia.
  - cbn [orb]. destruct (bool_decide _) eqn:Hd; [done|].
    intros [= <-]. right. split; [done|]. by apply bool_decide_eq_false in Hd.
Qed.

(** X13. The reservation dialog reports success (success toast, then
    [onSuccess], then closing) exactly when the product id is a string
    of 24 hexadecimal characters, the user is authenticated, the
    duration is one of 30, 60, 120, 1440, and the server's answer
    carries a non-empty [expiresAt] that parses as a date. It sends the
    user to the login page exactly when the product id is non-empty and
    the user is not authenticated. When it reports "Reservation
    failed" it neither closes nor calls [onSuccess]. *)
Theorem reserve_reports_success_only_for_a_dated_lease
    (productId productTitle : jsstring) (isAuthenticated : bool)
    (selectedDuration : Z)
    (server : CreateReservationData.t → Result Api.Error ReservationResponse) :
  let data := {| CreateReservationData.productId := productId;
                 CreateReservationData.durationMinutes := selectedDuration |} in
  let effects := handleReserve toLocaleString productId productTitle
                   isAuthenticated selectedDuration server in
  (onSuccess ∈ effects ↔
     (length productId = 24%nat
      ∧ Forall (λ c, c ∈ lit "0123456789abcdefABCDEF") productId)
     ∧ isAuthenticated = true
     ∧ selectedDuration ∈ [30; 60; 120; 1440]
     ∧ ∃ response t,
         server data = Ok response
         ∧ Reservation.expiresAt (reservation response) ≠ []
         ∧ Date_getTime (Reservation.expiresAt (reservation response))
           = Some t)
  ∧ (onSuccess ∈ effects →
     ∃ description,
       effects = [toast_success (lit "Product reserved!") description;
                  onSuccess; onClose])
  ∧ (navigate_login ∈ effects ↔ productId ≠ [] ∧ isAuthenticated = false)
  ∧ (∀ description,
       toast_error (lit "Reservation failed") description ∈ effects →
       effects = [toast_error (lit "Reservation failed") description]).
Proof.
  intros data effects. subst effects. unfold handleReserve.
  destruct (decide (productId = [])) as [->|Hne].
  { cbn [truthy_string negb].
    split; [|split; [|split]].
    - split.
      + intros Hin. apply list_elem_of_In in Hin. simpl in Hin.
        by destruct Hin as [?|[?|[]]].
      + by intros [[? _] _].
    - intros Hin. apply list_elem_of_In in Hin. simpl in Hin.
      by destruct Hin as [?|[?|[]]].
    - split.
      + intros Hin. apply list_elem_of_In in Hin. simpl in Hin.
        by destruct Hin as [?|[?|[]]].
      + by intros [? _].
    - intros d Hin. apply list_elem_of_In in Hin. simpl in Hin.
      by destruct Hin as [?|[?|[]]]. }
  rewrite (truthy_string_nonempty _ Hne).
  cbn [negb].
  destruct isAuthenticated.
  2:{ cbn [negb]. split; [|split; [|split]].
      - split.
        + intros Hin. apply list_elem_of_In in Hin. simpl in Hin.
          by destruct Hin as [?|[?|[?|[]]]].
        + by intros (_ & ? & _).
      - intros Hin. apply list_elem_of_In in Hin. simpl in Hin.
        by destruct Hin as [?|[?|[?|[]]]].
      - split; [done|]. intros _. apply list_elem_of_In. simpl. tauto.
      - intros d Hin. apply list_elem_of_In in Hin. simpl in Hin.
        by destruct Hin as [?|[?|[?|[]]]]. }
  cbn [negb]. unfold mutateAsync, try_catch, bind. fold data.
  destruct (useCreateReservation_mutationFn data) as [request|e] eqn:Em.
  - apply mutationFn_ok in Em as (-> & _ & Hv & Hd). cbn in Hv, Hd.
    apply isValidObjectId_spec in Hv.
    destruct (server data) as [response|e] eqn:Es.
    + destruct (truthy_string (Reservation.expiresAt (reservation response)))
        eqn:Hte; cbn [negb].
      * destruct (Date_getTime (Reservation.expiresAt (reservation response)))
          as [t|] eqn:Hp.
        -- split; [|split; [|split]].
           ++ split; [|intros _; apply list_elem_of_In; simpl; tauto].
              intros _. split; [done|]. split; [done|]. split; [done|].
              exists response, t. split; [done|]. split; [|done].
              intros E. by rewrite E in Hte.
           ++ intros _. by eexists.
           ++ split.
              ** intros Hin. apply list_elem_of_In in Hin. simpl in Hin.
                 by destruct Hin as [?|[?|[?|[]]]].
              ** by intros [_ ?].
           ++ intros d Hin. apply list_elem_of_In in Hin. simpl in Hin.
              by destruct Hin as [?|[?|[?|[]]]].
        -- split; [|split; [|split]].
           ++ split.
              ** intros Hin. apply list_elem_of_In in Hin. simpl in Hin.
                 by destruct Hin as [?|[]].
              ** intros (_ & _ & _ & r' & t & [= <-] & _ & Hp').
                 congruence.
           ++ intros Hin. apply list_elem_of_In in Hin. simpl in Hin.
              by destruct Hin as [?|[]].
           ++ split.
              ** intros Hin. apply list_elem_of_In in Hin. simpl in Hin.
                 by destruct Hin as [?|[]].
              ** by intros [_ ?].
           ++ intros d Hin. apply list_elem_of_In in Hin. simpl in Hin.
              destruct Hin as [[= <-]|[]]. done.
      * split; [|split; [|split]].
        -- split.
           ++ intros Hin. apply list_elem_of_In in Hin. simpl in Hin.
              by destruct Hin as [?|[]].
           ++ intros (_ & _ & _ & r' & t & [= <-] & Hne' & _).
              by destruct (Reservation.expiresAt (reservation response)).
        -- intros Hin. apply list_elem_of_In in Hin. simpl in Hin.
           by destruct Hin as [?|[]].
        -- split.
           ++ intros Hin. apply list_elem_of_In in Hin. simpl in Hin.
              by destruct Hin as [?|[]].
           ++ by intros [_ ?].
        -- intros d Hin. apply list_elem_of_In in Hin. simpl in Hin.
           destruct Hin as [[= <-]|[]]. done.
    + split; [|split; [|split]].
      * split.
        -- intros Hin. apply list_elem_of_In in Hin. simpl in Hin.
           by destruct Hin as [?|[]].
        -- by intros (_ & _ & _ & r' & t & ? & _).
      * intros Hin. apply list_elem_of_In in Hin. simpl in Hin.
        by destruct Hin as [?|[]].
      * split.
        -- intros Hin. apply list_elem_of_In in Hin. simpl in Hin.
           by destruct Hin as [?|[]].
        -- by intros [_ ?].
      * intros d Hin. apply list_elem_of_In in Hin. simpl in Hin.
        destruct Hin as [[= <-]|[]]. done.
  - apply mutationFn_throws in Em as Hwhy.
    split; [|split; [|split]].
    + split.
      * intros Hin. apply list_elem_of_In in Hin. simpl in Hin.
        by destruct Hin as [?|[]].
      * intros (Hid & _ & Hd & _).
        destruct Hwhy as [[_ [E|E]]|[_ E]].
        -- done.
        -- apply isValidObjectId_spec in Hid. cbn in E. congruence.
        -- done.
    + intros Hin. apply list_elem_of_In in Hin. simpl in Hin.
      by destruct Hin as [?|[]].
    + split.
      * intros Hin. apply list_elem_of_In in Hin. simpl in Hin.
        by destruct Hin as [?|[]].
      * by intros [_ ?].
    + intros d Hin. apply list_elem_of_In in Hin. simpl in Hin.
      destruct Hin as [[= <-]|[]]. done.
Qed.

(** X14. The dialog rejects a malformed request without consulting the
    server: with a non-empty product id that is not 24 hexadecimal
    characters, or a duration outside 30, 60, 120, 1440, an
    authenticated user gets the single toast "Reservation failed" with
    the validation message, whatever the server would answer. With a
    well-formed id, every duration the dialog offers passes the check
    and the request goes to the server unchanged. *)
Theorem reserve_rejects_malformed_request_locally
    (productId productTitle : jsstring) (selectedDuration : Z)
    (server : CreateReservationData.t → Result Api.Error ReservationResponse) :
  productId ≠ [] →
  (isValidObjectId productId = false →
   handleReserve toLocaleString productId productTitle true
     selectedDuration server
   = [toast_error (lit "Reservation failed") (lit "Invalid product ID")])
  ∧ (isValidObjectId productId = true →
     selectedDuration ∉ [30; 60; 120; 1440] →
     handleReserve toLocaleString productId productTitle true
       selectedDuration server
     = [toast_error (lit "Reservation failed")
          (lit "Invalid duration. Must be 30, 60, 120, or 1440 minutes")])
  ∧ (isValidObjectId productId = true →
     selectedDuration ∈ DURATION_OPTIONS →
     mutateAsync server
       {| CreateReservationData.productId := productId;
          CreateReservationData.durationMinutes := selectedDuration |}
     = server
         {| CreateReservationData.productId := productId;
            CreateReservationData.durationMinutes := selectedDuration |}).
Proof.
  intros Hne.
  pose proof (truthy_string_nonempty _ Hne) as Htr.
  unfold handleReserve, mutateAsync, try_catch, bind.
  rewrite Htr. cbn [negb].
  set (data := {| CreateReservationData.productId := productId;
                  CreateReservationData.durationMinutes := selectedDuration |}).
  split; [|split].
  - intros Hv. unfold useCreateReservation_mutationFn.
    cbn [CreateReservationData.productId data]. subst data. cbn.
    by rewrite Htr, Hv.
  - intros Hv Hd. unfold useCreateReservation_mutationFn, includes.
    subst data. cbn [CreateReservationData.productId
                     CreateReservationData.durationMinutes].
    rewrite Htr, Hv, (bool_decide_eq_false_2 _ Hd). cbn [negb orb].
    by rewrite orb_true_r.
  - intros Hv Hd. unfold useCreateReservation_mutationFn, includes.
    subst data. cbn [CreateReservationData.productId
                     CreateReservationData.durationMinutes].
    unfold DURATION_OPTIONS in Hd.
    rewrite Htr, Hv, (bool_decide_eq_true_2 _ Hd). cbn [negb orb].
    replace (selectedDuration =? 0) with false; [done|].
    symmetry. apply Z.eqb_neq. intros E. rewrite E in Hd.
    apply list_elem_of_In in Hd. simpl in Hd. lia.
Qed.

End Reserve.

Lemma reserve_reports_success_only_for_a_dated_lease_witness :
  let H := Reference.runtime in
  let server := λ _ : CreateReservationData.t,
      @Ok Api.Error _
        {| ReservationModal.reservation := sample_reservation;
           ReservationModal.message := lit "Reserved" |} in
  ReservationModal.handleReserve (λ _, lit "Jan 1, 12:00 AM")
    (lit "65f0c0ffee0123456789abce") (lit "Desk lamp") true 30 server
  = [ReservationModal.toast_success (lit "Product reserved!")
       (lit "Desk lamp is reserved until Jan 1, 12:00 AM");
     ReservationModal.onSuccess; ReservationModal.onClose].
Proof.
  intros H server.
  destruct (reserve_reports_success_only_for_a_dated_lease (H := H)
              (λ _, lit "Jan 1, 12:00 AM")
              (lit "65f0c0ffee0123456789abce") (lit "Desk lamp") true 30 server)
    as (A & B & _).
  destruct B as [d B].
  - apply A. split.
    { split; [reflexivity|]. apply (bool_decide_unpack _). vm_compute. exact I. }
    split; [reflexivity|]. split.
    { apply (bool_decide_unpack _). vm_compute. exact I. }
    exists {| ReservationModal.reservation := sample_reservation;
              ReservationModal.message := lit "Reserved" |}, 1735689600000.
    split; [reflexivity|].
    split; [discriminate|vm_compute; reflexivity].
  - pose proof B as B'. vm_compute in B'. injection B' as <-. exact B.
Defined.

Lemma reserve_rejects_malformed_request_locally_witness :
  let H := Reference.runtime in
  let server := λ _ : CreateReservationData.t,
      @Ok Api.Error _
        {| ReservationModal.reservation := sample_reservation;
           ReservationModal.message := lit "Reserved" |} in
  ReservationModal.handleReserve (λ _, lit "Jan 1, 12:00 AM")
    (lit "lamp-42") (lit "Desk lamp") true 30 server
  = [ReservationModal.toast_error (lit "Reservation failed")
       (lit "Invalid product ID")].
Proof.
  intros H server.
  destruct (reserve_rejects_malformed_request_locally (H := H)
              (λ _, lit "Jan 1, 12:00 AM") (lit "lamp-42") (lit "Desk lamp")
              30 server) as (A & _).
  - discriminate.
  - apply A. reflexivity.
Defined.

(** ** The contact dialog, whatever the server answers *)

Section ContactDialog.
Import ContactSellerButton.
Context (cannot_read_id : jsstring).


End ContactDialog.


(** ** The resend cooldown *)

Section Cooldown.
Import VerificationPending.

Lemma requests_not_before (email : jsstring) (events : list Event) :
  ∀ cooldown elapsed entry,
    entry ∈ requests email cooldown elapsed events →
    elapsed + cooldown ≤ entry.1.
Proof.
  induction events as [|ev rest IH]; intros c k entry Hin.
  - by apply elem_of_nil in Hin.
  - destruct ev as [outcome|]; cbn [requests step fst snd] in Hin.
    + unfold handleResendEmail in Hin.
      destruct (Z.ltb_spec 0 c) as [Hc|Hc]; cbn [fst snd] in Hin.
      * rewrite bool_decide_eq_true_2 in Hin by done.
        apply IH in Hin. lia.
      * destruct outcome as [[]|err]; cbn [fst snd] in Hin;
          rewrite bool_decide_eq_false_2 in Hin by done;
          apply elem_of_cons in Hin as [->|Hin];
          try (cbn [fst]; lia); apply IH in Hin; lia.
    + apply IH in Hin. unfold tick in Hin.
      destruct (Z.ltb_spec 0 c); lia.
Qed.

Lemma requests_spaced (email : jsstring) (events : list Event) :
  ∀ cooldown elapsed pre ta tb sb post,
    requests email cooldown elapsed events
    = pre ++ (ta, true) :: (tb, sb) :: post →
    ta + 60 ≤ tb.
Proof.
  induction events as [|ev rest IH]; intros c k pre ta tb sb post E.
  - by destruct pre.
  - destruct ev as [outcome|]; cbn [requests step fst snd] in E.
    + unfold handleResendEmail in E.
      destruct (Z.ltb_spec 0 c) as [Hc|Hc]; cbn [fst snd] in E.
      * rewrite bool_decide_eq_true_2 in E by done. by eapply IH.
      * destruct outcome as [[]|err]; cbn [fst snd] in E;
          rewrite bool_decide_eq_false_2 in E by done;
          cbn [app] in E.
        -- destruct pre as [|x pre]; cbn [app] in E.
           ++ injection E as <- E.
              assert (Hin : (tb, sb) ∈ requests email 60 k rest)
                by (rewrite E; left).
              apply requests_not_before in Hin. cbn [fst] in Hin. lia.
           ++ injection E as _ E. by eapply IH.
        -- destruct pre as [|x pre]; cbn [app] in E.
           ++ by injection E.
           ++ injection E as _ E. by eapply IH.
    + by eapply IH.
Qed.

Lemma final_bounds (email : jsstring) (events : list Event) :
  ∀ cooldown, 0 ≤ cooldown ≤ 60 → 0 ≤ final email cooldown events ≤ 60.
Proof.
  unfold final. induction events as [|ev rest IH]; intros c Hc; [done|].
  cbn [foldl]. apply IH.
  destruct ev as [outcome|]; cbn [step fst].
  - unfold handleResendEmail. destruct (0 <? c); [done|].
    destruct outcome; cbn [fst]; lia.
  - unfold tick. destruct (Z.ltb_spec 0 c); lia.
Qed.

(** X16. On the verification page, starting with no cooldown and
    through any run of resend clicks (however each request settles) and
    countdown ticks, the cooldown stays between 0 and 60, a click
    during a cooldown sends nothing, and after a request that
    succeeded the next request is sent at least 60 ticks later. *)
Theorem resend_cooldown_spaces_requests (email : jsstring)
    (events : list Event) :
  0 ≤ final email 0 events ≤ 60
  ∧ (∀ outcome, 0 < final email 0 events →
       handleResendEmail email (final email 0 events) outcome
       = (final email 0 events, []))
  ∧ (∀ pre ta tb sb post,
       requests email 0 0 events = pre ++ (ta, true) :: (tb, sb) :: post →
       ta + 60 ≤ tb).
Proof.
  split; [by apply final_bounds|]. split.
  - intros outcome Hpos. unfold handleResendEmail.
    by replace (0 <? final email 0 events) with true
      by (symmetry; by apply Z.ltb_lt).
  - apply requests_spaced.
Qed.

End Cooldown.

Lemma resend_cooldown_spaces_requests_witness :
  let events :=
    VerificationPending.Resend (Ok ()) :: VerificationPending.Resend (Ok ())
    :: replicate 60 VerificationPending.Tick
    ++ [VerificationPending.Resend (Throw Api.TypeError);
        VerificationPending.Resend (Ok ())] in
  VerificationPending.requests (lit "a@edu.devinci.fr") 0 0 events
  = [(0, true); (60, false); (60, true)]
  ∧ 0 + 60 ≤ 60.
Proof.
  intros events.
  destruct (resend_cooldown_spaces_requests (lit "a@edu.devinci.fr") events)
    as (_ & _ & A).
  split; [vm_compute; reflexivity|].
  apply (A [] 0 60 false [(60, true)]). vm_compute. reflexivity.
Defined.

Lemma presence_update_touches_one_user_witness :
  let ada := {| Participant._id := lit "u1"; Participant.name := lit "Ada";
                Participant.avatar := None; Participant.isOnline := None |} in
  let bob := {| Participant._id := lit "u2"; Participant.name := lit "Bob";
                Participant.avatar := None;
                Participant.isOnline := Some true |} in
  let old := {| ChatSocket.chat := sample_chat;
                ChatSocket.participants := [ada; bob] |} in
  ChatSocket.handleUserStatus (lit "u1") true
    (ChatSocket.handleUserStatus (lit "u2") false (Some old))
  = ChatSocket.handleUserStatus (lit "u2") false
      (ChatSocket.handleUserStatus (lit "u1") true (Some old)).
Proof.
  intros ada bob old.
  destruct (presence_update_touches_one_user (lit "u2") false old)
    as (_ & new & _ & _ & _ & _ & _ & _ & _ & _ & A).
  apply (A (lit "u1") true). discriminate.
Defined.
